(** * Signal codec, signal table schema and signal table writer

    A shallow embedding of
    - [c++/pod5_format/signal_compression.cpp] (the two-stage signal codec),
    - [c++/mkr_format/signal_table_schema.cpp] (the schema builder and
      validator of the signal table), and
    - the [SignalTableWriter] class declared in the writer header,
    together with the properties the format description states about them.

    Integers of the C code are [Z] with their wrap-around written out; a
    (pointer, size) pair denoting a byte span is a [list Z] of bytes. *)

From Stdlib Require Import String Ascii ZArith List Lia Bool Permutation.
Import ListNotations.
Local Open Scope Z_scope.

(* ================================================================== *)
(** * Fixed-width integers *)

Definition is_int16 (x : Z) : Prop := -32768 <= x <= 32767.
Definition is_uint16 (x : Z) : Prop := 0 <= x < 65536.
Definition is_byte (x : Z) : Prop := 0 <= x < 256.

(** Conversion to [uint16_t], [int16_t] and [uint32_t]. *)
Definition to_uint16 (x : Z) : Z := x mod 65536.
Definition to_int16 (x : Z) : Z :=
  let u := x mod 65536 in if u <? 32768 then u else u - 65536.
Definition to_uint32 (x : Z) : Z := x mod 2 ^ 32.

Definition len (l : list Z) : Z := Z.of_nat (length l).

(* ================================================================== *)
(** * The variable-byte transform (svb16) *)

Module svb16.

(** Modelled from the spec: the headers [pod5_format/svb16/encode.hpp] and
    [pod5_format/svb16/decode.hpp] that [signal_compression.cpp] includes are
    not part of the sources at hand.  The transform below follows section 4.1
    of the format description: first differences over 16 bits, the zigzag
    map [(x << 1) ^ (x >> 15)], then one or two payload bytes per value with
    a 2-bit length descriptor per value, four descriptors to a byte, all
    descriptor bytes in front of the payload.  Where the description is
    silent the classic layout is taken: descriptor [0] for one byte, [1] for
    two, the first value in the low bits, payload little-endian. *)

Definition zigzag_encode (x : Z) : Z :=
  to_uint16 (Z.lxor (Z.shiftl x 1) (Z.shiftr x 15)).

Definition zigzag_decode (u : Z) : Z :=
  to_int16 (Z.lxor (Z.shiftr u 1) (- Z.land u 1)).

(** [prev] is the previous sample, 0 for the first element. *)
Fixpoint delta_encode (prev : Z) (samples : list Z) : list Z :=
  match samples with
  | [] => []
  | x :: rest => to_int16 (x - prev) :: delta_encode x rest
  end.

Fixpoint delta_decode (prev : Z) (deltas : list Z) : list Z :=
  match deltas with
  | [] => []
  | d :: rest => let x := to_int16 (prev + d) in x :: delta_decode x rest
  end.

(** The 2-bit length descriptor of a zigzag value and its payload bytes. *)
Definition length_code (v : Z) : Z := if v <? 256 then 0 else 1.

Definition payload_bytes (v : Z) : list Z :=
  if v <? 256 then [v] else [Z.land v 255; Z.shiftr v 8].

Definition key_byte (c0 c1 c2 c3 : Z) : Z :=
  Z.lor (Z.lor c0 (Z.shiftl c1 2)) (Z.lor (Z.shiftl c2 4) (Z.shiftl c3 6)).

(** The descriptors the encoder emits. *)
Definition is_code (c : Z) : Prop := c = 0 \/ c = 1.

(** One descriptor byte carries the length codes of four values; the last
    byte is padded with zero codes. *)
Fixpoint pack_descriptors (codes : list Z) : list Z :=
  match codes with
  | [] => []
  | [c0] => [key_byte c0 0 0 0]
  | [c0; c1] => [key_byte c0 c1 0 0]
  | [c0; c1; c2] => [key_byte c0 c1 c2 0]
  | c0 :: c1 :: c2 :: c3 :: rest => key_byte c0 c1 c2 c3 :: pack_descriptors rest
  end.

Definition unpack_key (k : Z) : list Z :=
  [Z.land k 3; Z.land (Z.shiftr k 2) 3; Z.land (Z.shiftr k 4) 3; Z.land (Z.shiftr k 6) 3].

Definition unpack_descriptors (keys : list Z) : list Z := flat_map unpack_key keys.

(** Number of descriptor bytes for [count] values: [ceil (count / 4)]. *)
Definition key_length (count : nat) : nat := ((count + 3) / 4)%nat.

Definition zigzag_deltas (samples : list Z) : list Z :=
  map zigzag_encode (delta_encode 0 samples).

(** [encode_transform]: descriptor bytes, then payload bytes. *)
Definition encode (samples : list Z) : list Z :=
  let vals := zigzag_deltas samples in
  pack_descriptors (map length_code vals) ++ flat_map payload_bytes vals.

(** Reads one value per descriptor from [data]; the second component is the
    payload left unread.  A payload that ends early, or a descriptor that is
    neither [0] nor [1], is a transform error. *)
Fixpoint unpack_values (codes data : list Z) : option (list Z * list Z) :=
  match codes with
  | [] => Some ([], data)
  | c :: cs =>
      if c =? 0 then
        match data with
        | b0 :: d =>
            match unpack_values cs d with
            | Some (vs, r) => Some (b0 :: vs, r)
            | None => None
            end
        | _ => None
        end
      else if c =? 1 then
        match data with
        | b0 :: b1 :: d =>
            match unpack_values cs d with
            | Some (vs, r) => Some (Z.lor b0 (Z.shiftl b1 8) :: vs, r)
            | None => None
            end
        | _ => None
        end
      else None
  end.

(** [decode_transform]: the samples and the number of input bytes consumed,
    or [None] when the input is shorter than [count] values need. *)
Definition decode (input : list Z) (count : nat) : option (list Z * nat) :=
  let klen := key_length count in
  if (length input <? klen)%nat then None
  else
    let keys := firstn klen input in
    let data := skipn klen input in
    match unpack_values (firstn count (unpack_descriptors keys)) data with
    | Some (vals, rest) =>
        Some (delta_decode 0 (map zigzag_decode vals),
              (length input - length rest)%nat)
    | None => None
    end.

End svb16.

(** Modelled from the spec: [svb16_max_encoded_length] is declared in the svb16
    headers, which are not among the sources; section 4.1 gives its closed form
    [ceil (n / 4) + 2 * n]: one descriptor byte per four samples and at most two
    payload bytes per sample. *)
Definition svb16_max_encoded_length (count : Z) : Z := (count + 3) / 4 + 2 * count.

(* ================================================================== *)
(** * zstd, the external entropy compressor *)

(** Constants and the error test of [zstd.h] and [zstd_errors.h].  A
    [size_t] result is an error code when it exceeds
    [(size_t)-ZSTD_error_maxCode]; the two content-size sentinels
    [0ULL - 1] and [0ULL - 2] lie in that range. *)
Definition ZSTD_error_maxCode : Z := 120.
Definition ZSTD_CONTENTSIZE_UNKNOWN : Z := 2 ^ 64 - 1.
Definition ZSTD_CONTENTSIZE_ERROR : Z := 2 ^ 64 - 2.
Definition ZSTD_error_dstSize_tooSmall : Z := 2 ^ 64 - 70.
Definition ZSTD_error_srcSize_wrong : Z := 2 ^ 64 - 72.

Definition ZSTD_isError (code : Z) : bool := 2 ^ 64 - ZSTD_error_maxCode <? code.

(** The four entry points the codec calls.  A source span (pointer and
    size) is the list of its bytes; a call that writes a destination buffer
    returns its [size_t] result together with the bytes it wrote. *)
Class Zstd : Type := {
  ZSTD_compressBound : Z -> Z;
  ZSTD_compress : Z -> list Z -> Z -> Z * list Z;
  ZSTD_getFrameContentSize : list Z -> Z;
  ZSTD_decompress : Z -> list Z -> Z * list Z
}.

(** The compression level is fixed when the library is built. *)
Class BuildConfig : Type := { SLOW5_ZSTD_COMPRESS_LEVEL : Z }.

(** What the codec relies on, as [zstd.h] documents it.  A compression that
    does not report an error wrote as many bytes as it returns, within the
    capacity it was given. *)
Definition compress_writes_its_size `{Zstd} : Prop :=
  forall dstCapacity src level,
    let '(code, dst) := ZSTD_compress dstCapacity src level in
    ZSTD_isError code = false -> len dst = code /\ code <= dstCapacity.

(** Compression into a buffer of at least [ZSTD_compressBound] bytes succeeds. *)
Definition compress_succeeds_within_bound `{Zstd} : Prop :=
  forall dstCapacity src level,
    ZSTD_isError (ZSTD_compressBound (len src)) = false ->
    ZSTD_compressBound (len src) <= dstCapacity ->
    ZSTD_isError (fst (ZSTD_compress dstCapacity src level)) = false.

(** The bound does not decrease with the source size (an error code is
    larger than every size). *)
Definition compressBound_monotone `{Zstd} : Prop :=
  forall a b, 0 <= a <= b -> ZSTD_compressBound a <= ZSTD_compressBound b.

(** A frame records the size of its content and decompresses to it. *)
Definition frame_round_trip `{Zstd} : Prop :=
  forall dstCapacity src level,
    let '(code, dst) := ZSTD_compress dstCapacity src level in
    ZSTD_isError code = false ->
    ZSTD_isError (len src) = false /\
    ZSTD_getFrameContentSize dst = len src /\
    ZSTD_decompress (len src) dst = (len src, src).

(** A frame cut short is refused: either its header is unreadable or its
    decompression fails. *)
Definition truncated_frame_refused `{Zstd} : Prop :=
  forall dstCapacity src level (k : nat),
    let '(code, dst) := ZSTD_compress dstCapacity src level in
    ZSTD_isError code = false ->
    (k < length dst)%nat ->
    let cut := firstn k dst in
    ZSTD_isError (ZSTD_getFrameContentSize cut) = true \/
    ZSTD_isError (fst (ZSTD_decompress (ZSTD_getFrameContentSize cut) cut)) = true.

(* ================================================================== *)
(** * The signal codec: [signal_compression.cpp] *)

Section SignalCompression.
Context {zstd : Zstd} {config : BuildConfig}.

Definition compressed_signal_max_size (sample_count : Z) : Z :=
  let max_svb_size := to_uint32 (svb16_max_encoded_length sample_count) in
  let zstd_compressed_max_size := ZSTD_compressBound max_svb_size in
  zstd_compressed_max_size.

(** The values the function computes.  [compress_signal samples count] is
    [None] for the source's [NULL], and otherwise the bytes written to
    [destination] with the value stored in [*n].  The source's last
    assignment reads [compression_size], a name it never declares; this
    reading takes [compressed_size], the result of [ZSTD_compress], and leaves
    the capacity of [intermediate] aside.  [as_written.compress_signal] below
    is the function as the source has it. *)
Definition compress_signal (samples : list Z) (count : Z) : option (list Z * Z) :=
  let max_size := to_uint32 (svb16_max_encoded_length count) in
  let intermediate := svb16.encode (firstn (Z.to_nat count) samples) in
  let encoded_count := len intermediate in
  let zstd_compressed_max_size := ZSTD_compressBound max_size in
  if ZSTD_isError zstd_compressed_max_size then None
  else
    let '(compressed_size, destination) :=
      ZSTD_compress zstd_compressed_max_size intermediate SLOW5_ZSTD_COMPRESS_LEVEL in
    if ZSTD_isError compressed_size then None
    else Some (destination, compressed_size).

(** [decompress_signal destination compressed_bytes count]: [count] is the
    size of the compressed span, handed to zstd as its source size; the
    function has no parameter for the number of samples.  The local
    [destination] is declared without a value and is passed to the decoder,
    as output and as last argument, before anything is stored in it (the
    source marks this with a TODO); what the decoder is told to produce is
    therefore not determined by the arguments, and the indeterminate value is
    an explicit input here.  A decoder that would run past the end of
    [intermediate] has no value in this model and the call fails.  This is
    the reading in which [destination] is a buffer of that many samples;
    [as_written.decompress_signal] below is the function as the source has
    it. *)
Definition decompress_signal (destination : Z) (compressed_bytes : list Z) (count : Z)
  : option (list Z) :=
  let src := firstn (Z.to_nat count) compressed_bytes in
  let decompressed_zstd_size := ZSTD_getFrameContentSize src in
  if ZSTD_isError decompressed_zstd_size then None
  else
    let '(decompress_res, intermediate) := ZSTD_decompress decompressed_zstd_size src in
    if ZSTD_isError decompress_res then None
    else
      match svb16.decode intermediate (Z.to_nat destination) with
      | None => None
      | Some (samples, consumed_count) =>
          if negb (Z.of_nat consumed_count =? decompressed_zstd_size) then None
          else Some samples
      end.

End SignalCompression.

(** ** The two functions as the source has them *)

(** What a call comes to: it returns a value, or it does something the C
    language gives no meaning to (it reads an object that was never
    assigned, or writes past the end of an allocation). *)
Inductive Behaviour (A : Type) : Type :=
  | Returns (value : A)
  | Undefined.
Arguments Returns {A} value.
Arguments Undefined {A}.

Module as_written.
Section AsWritten.
Context {zstd : Zstd} {config : BuildConfig}.

(** The encoder writes [encoded_count] bytes into [intermediate], an
    allocation of [max_size] bytes, where [max_size] is the maximum encoded
    length kept in a [uint32_t]: it writes past the allocation when the
    encoding is longer.  The value stored in [*n] is that of
    [compression_size], an identifier that no declaration of the file binds:
    whatever it denotes is an input here, and it is not [compressed_size].
    Allocations are taken to succeed. *)
Definition compress_signal (compression_size : Z) (samples : list Z) (count : Z)
  : Behaviour (option (list Z * Z)) :=
  let max_size := to_uint32 (svb16_max_encoded_length count) in
  let intermediate := svb16.encode (firstn (Z.to_nat count) samples) in
  let encoded_count := len intermediate in
  if max_size <? encoded_count then Undefined
  else
    let zstd_compressed_max_size := ZSTD_compressBound max_size in
    if ZSTD_isError zstd_compressed_max_size then Returns None
    else
      let '(compressed_size, destination) :=
        ZSTD_compress zstd_compressed_max_size intermediate SLOW5_ZSTD_COMPRESS_LEVEL in
      if ZSTD_isError compressed_size then Returns None
      else Returns (Some (destination, compression_size)).

(** After the two exits on a zstd error the function reads [destination],
    which it declared and never assigned: it hands it to the decoder as
    output and as last argument, frees it when the consumed count differs
    from the content size, and returns it otherwise.  None of this has a
    meaning. *)
Definition decompress_signal (compressed_bytes : list Z) (count : Z)
  : Behaviour (option (list Z)) :=
  let src := firstn (Z.to_nat count) compressed_bytes in
  let decompressed_zstd_size := ZSTD_getFrameContentSize src in
  if ZSTD_isError decompressed_zstd_size then Returns None
  else
    let '(decompress_res, intermediate) := ZSTD_decompress decompressed_zstd_size src in
    if ZSTD_isError decompress_res then Returns None
    else Undefined.

End AsWritten.
End as_written.

(* ================================================================== *)
(** * A reference compressor

    The smallest frame format that honours the zstd interface: the zstd magic
    number, the content size on eight little-endian bytes, then the content
    stored as it is.  It gives the statements about the codec a concrete
    compressor to run on. *)

Module stored.

Definition magic : list Z := [40; 181; 47; 253].
Definition header_size : Z := 12.

Fixpoint le_bytes (n : nat) (x : Z) : list Z :=
  match n with
  | O => []
  | S k => x mod 256 :: le_bytes k (x / 256)
  end.

Fixpoint le_value (bs : list Z) : Z :=
  match bs with
  | [] => 0
  | b :: rest => b + 256 * le_value rest
  end.

Definition list_Z_eqb (a b : list Z) : bool :=
  if list_eq_dec Z.eq_dec a b then true else false.

Definition compressBound (srcSize : Z) : Z :=
  if srcSize <? 2 ^ 62 then srcSize + header_size else ZSTD_error_srcSize_wrong.

Definition compress (dstCapacity : Z) (src : list Z) (level : Z) : Z * list Z :=
  if 2 ^ 62 <=? len src then (ZSTD_error_srcSize_wrong, [])
  else if dstCapacity <? len src + header_size then (ZSTD_error_dstSize_tooSmall, [])
  else (len src + header_size, magic ++ le_bytes 8 (len src) ++ src).

Definition getFrameContentSize (src : list Z) : Z :=
  if (len src <? header_size) || negb (list_Z_eqb (firstn 4 src) magic)
  then ZSTD_CONTENTSIZE_ERROR
  else le_value (firstn 8 (skipn 4 src)).

Definition decompress (dstCapacity : Z) (src : list Z) : Z * list Z :=
  let size := getFrameContentSize src in
  if ZSTD_isError size then (ZSTD_error_srcSize_wrong, [])
  else if negb (len (skipn 12 src) =? size) then (ZSTD_error_srcSize_wrong, [])
  else if dstCapacity <? size then (ZSTD_error_dstSize_tooSmall, [])
  else (size, skipn 12 src).

#[export] Instance zstd : Zstd := {
  ZSTD_compressBound := compressBound;
  ZSTD_compress := compress;
  ZSTD_getFrameContentSize := getFrameContentSize;
  ZSTD_decompress := decompress
}.

#[export] Instance config : BuildConfig := { SLOW5_ZSTD_COMPRESS_LEVEL := 1 }.

End stored.

(* ================================================================== *)
(** * zstd frames of raw blocks

    The wire format of zstd (RFC 8878) for the frames that need no entropy
    decoding: the frame header as every zstd reader parses it, and blocks of
    type raw and RLE.  Frames with a dictionary, a checksum or a compressed
    block, skippable frames and frames that follow one another are not
    covered and are refused here.  The bound is the one of [zstd.h].  Which
    error code a refusal carries is not modelled: every one of them is an
    error for [ZSTD_isError]. *)

Module zstd_raw.

Definition ZSTD_MAGICNUMBER : list Z := [40; 181; 47; 253].
Definition ZSTD_MAX_INPUT_SIZE : Z := 255 * 2 ^ 56 + 255 * 2 ^ 40 + 255 * 2 ^ 24 + 255 * 2 ^ 8.
Definition ZSTD_BLOCKSIZE_MAX : Z := 131072.
Definition ERROR (code : Z) : Z := 2 ^ 64 - code.
Definition ZSTD_error_GENERIC : Z := 1.
Definition ZSTD_error_prefix_unknown : Z := 10.
Definition ZSTD_error_corruption_detected : Z := 20.
Definition ZSTD_error_dstSize_tooSmall : Z := 70.
Definition ZSTD_error_srcSize_wrong : Z := 72.

(** [ZSTD_COMPRESSBOUND] and [ZSTD_compressBound]. *)
Definition compressBound (srcSize : Z) : Z :=
  if ZSTD_MAX_INPUT_SIZE <=? srcSize then ERROR ZSTD_error_srcSize_wrong
  else srcSize + Z.shiftr srcSize 8
       + (if srcSize <? ZSTD_BLOCKSIZE_MAX
          then Z.shiftr (ZSTD_BLOCKSIZE_MAX - srcSize) 11 else 0).

Record FrameHeader : Type := {
  frameContentSize : Z;
  headerSize : nat;
  checksumFlag : bool;
  dictIDSize : nat
}.

(** [ZSTD_getFrameHeader]: [None] when the input is too short for the
    header, does not start with the magic number, or sets the reserved bit or
    a window beyond the largest one. *)
Definition getFrameHeader (src : list Z) : option FrameHeader :=
  if (length src <? 5)%nat then None
  else if negb (stored.list_Z_eqb (firstn 4 src) ZSTD_MAGICNUMBER) then None
  else
    let fhdByte := nth 4 src 0 in
    let dictIDSizeCode := Z.land fhdByte 3 in
    let checksum := Z.land (Z.shiftr fhdByte 2) 1 in
    let singleSegment := Z.land (Z.shiftr fhdByte 5) 1 in
    let fcsID := Z.shiftr fhdByte 6 in
    let window_bytes := if singleSegment =? 1 then O else 1%nat in
    let dict_bytes := nth (Z.to_nat dictIDSizeCode) [O; 1; 2; 4]%nat O in
    let fcs_bytes :=
      if fcsID =? 0 then Z.to_nat singleSegment
      else if fcsID =? 1 then 2%nat
      else if fcsID =? 2 then 4%nat
      else 8%nat in
    let fhsize := (5 + window_bytes + dict_bytes + fcs_bytes)%nat in
    if (length src <? fhsize)%nat then None
    else if negb (Z.land fhdByte 8 =? 0) then None
    else if (singleSegment =? 0) && (31 <? Z.shiftr (nth 5 src 0) 3 + 10) then None
    else
      let field := firstn fcs_bytes (skipn (5 + window_bytes + dict_bytes) src) in
      let fcs :=
        if fcsID =? 0 then
          if singleSegment =? 1 then stored.le_value field else ZSTD_CONTENTSIZE_UNKNOWN
        else if fcsID =? 1 then stored.le_value field + 256
        else stored.le_value field in
      Some {| frameContentSize := fcs;
              headerSize := fhsize;
              checksumFlag := checksum =? 1;
              dictIDSize := dict_bytes |}.

Definition getFrameContentSize (src : list Z) : Z :=
  match getFrameHeader src with
  | None => ZSTD_CONTENTSIZE_ERROR
  | Some h => frameContentSize h
  end.

(** The blocks of a frame: the content they hold and the bytes after the last
    block.  A block header is three little-endian bytes: the last-block bit,
    two bits of block type, 21 bits of block size. *)
Fixpoint decode_blocks (fuel : nat) (bytes : list Z) : option (list Z * list Z) :=
  match fuel with
  | O => None
  | S fuel' =>
      match bytes with
      | b0 :: b1 :: b2 :: body =>
          let v := b0 + 256 * b1 + 65536 * b2 in
          let last := Z.land v 1 in
          let btype := Z.land (Z.shiftr v 1) 3 in
          let bsize := Z.to_nat (Z.shiftr v 3) in
          if ZSTD_BLOCKSIZE_MAX <? Z.shiftr v 3 then None
          else
            let block :=
              if btype =? 0 then
                if (length body <? bsize)%nat then None
                else Some (firstn bsize body, skipn bsize body)
              else if btype =? 1 then
                match body with
                | byte :: rest => Some (repeat byte bsize, rest)
                | [] => None
                end
              else None in
            match block with
            | None => None
            | Some (chunk, rest) =>
                if last =? 1 then Some (chunk, rest)
                else
                  match decode_blocks fuel' rest with
                  | Some (more, rest') => Some (chunk ++ more, rest')
                  | None => None
                  end
            end
      | _ => None
      end
  end.

Definition decompress (dstCapacity : Z) (src : list Z) : Z * list Z :=
  match src with
  | [] => (0, [])
  | _ =>
      match getFrameHeader src with
      | None => (ERROR ZSTD_error_prefix_unknown, [])
      | Some h =>
          if checksumFlag h || negb (dictIDSize h =? 0)%nat
          then (ERROR ZSTD_error_GENERIC, [])
          else
            match decode_blocks (length src) (skipn (headerSize h) src) with
            | None => (ERROR ZSTD_error_srcSize_wrong, [])
            | Some (content, rest) =>
                if negb (length rest =? 0)%nat then (ERROR ZSTD_error_srcSize_wrong, [])
                else if negb (frameContentSize h =? ZSTD_CONTENTSIZE_UNKNOWN)
                        && negb (frameContentSize h =? len content)
                then (ERROR ZSTD_error_corruption_detected, [])
                else if dstCapacity <? len content
                then (ERROR ZSTD_error_dstSize_tooSmall, [])
                else (len content, content)
            end
      end
  end.

(** An encoder for sources of at most one block: a single-segment frame with
    its content size and one raw block. *)
Definition compress (dstCapacity : Z) (src : list Z) (level : Z) : Z * list Z :=
  if ZSTD_BLOCKSIZE_MAX <? len src then (ERROR ZSTD_error_GENERIC, [])
  else
    let header :=
      if len src <? 256 then [32; len src]
      else if len src <? 65792 then 96 :: stored.le_bytes 2 (len src - 256)
      else 160 :: stored.le_bytes 4 (len src) in
    let frame :=
      ZSTD_MAGICNUMBER ++ header ++ stored.le_bytes 3 (1 + 8 * len src) ++ src in
    if dstCapacity <? len frame then (ERROR ZSTD_error_dstSize_tooSmall, [])
    else (len frame, frame).

#[export] Instance zstd : Zstd := {
  ZSTD_compressBound := compressBound;
  ZSTD_compress := compress;
  ZSTD_getFrameContentSize := getFrameContentSize;
  ZSTD_decompress := decompress
}.

#[export] Instance config : BuildConfig := { SLOW5_ZSTD_COMPRESS_LEVEL := 1 }.

End zstd_raw.

(* ================================================================== *)
(** * Arrow: the columnar container's types, fields and schemas *)

Module arrow.

Inductive TypeId : Type :=
  | NA | BOOL | UINT8 | INT8 | UINT16 | INT16 | UINT32 | INT32 | UINT64 | INT64
  | FLOAT | DOUBLE | STRING | BINARY | FIXED_SIZE_BINARY | LIST | LARGE_BINARY
  | LARGE_LIST | EXTENSION.

Inductive DataType : Type :=
  | null | boolean | uint8 | int8 | uint16 | int16 | uint32 | int32 | uint64 | int64
  | float32 | float64 | utf8 | binary | large_binary
  | fixed_size_binary (byte_width : Z)
  | list_ (value : DataType)
  | large_list (value : DataType)
  | extension (ext_name : string) (storage_type : DataType).

Definition id (t : DataType) : TypeId :=
  match t with
  | null => NA | boolean => BOOL
  | uint8 => UINT8 | int8 => INT8 | uint16 => UINT16 | int16 => INT16
  | uint32 => UINT32 | int32 => INT32 | uint64 => UINT64 | int64 => INT64
  | float32 => FLOAT | float64 => DOUBLE
  | utf8 => STRING | binary => BINARY | large_binary => LARGE_BINARY
  | fixed_size_binary _ => FIXED_SIZE_BINARY
  | list_ _ => LIST
  | large_list _ => LARGE_LIST
  | extension _ _ => EXTENSION
  end.

(** [DataType::name()]. *)
Definition name (t : DataType) : string :=
  match t with
  | null => "null" | boolean => "bool"
  | uint8 => "uint8" | int8 => "int8" | uint16 => "uint16" | int16 => "int16"
  | uint32 => "uint32" | int32 => "int32" | uint64 => "uint64" | int64 => "int64"
  | float32 => "float" | float64 => "double"
  | utf8 => "utf8" | binary => "binary" | large_binary => "large_binary"
  | fixed_size_binary _ => "fixed_size_binary"
  | list_ _ => "list"
  | large_list _ => "large_list"
  | extension _ _ => "extension"
  end.

(** [ExtensionType::extension_name()] and [LargeListType::value_type()], read
    through the [static_cast] the validator performs after it has tested the
    type id. *)
Definition extension_name (t : DataType) : string :=
  match t with
  | extension n _ => n
  | _ => ""
  end.

Definition value_type (t : DataType) : DataType :=
  match t with
  | list_ v | large_list v => v
  | _ => null
  end.

Definition TypeId_eq_dec (a b : TypeId) : {a = b} + {a <> b}.
Proof. decide equality. Defined.

Definition TypeId_eqb (a b : TypeId) : bool :=
  if TypeId_eq_dec a b then true else false.

Record Field : Type := field { field_name : string; type : DataType }.

Definition KeyValueMetadata : Type := list (string * string).

Record Schema : Type := schema { fields : list Field; metadata : KeyValueMetadata }.

Fixpoint indices_of (nm : string) (fs : list Field) (i : Z) : list Z :=
  match fs with
  | [] => []
  | f :: rest =>
      if String.eqb (field_name f) nm then i :: indices_of nm rest (i + 1)
      else indices_of nm rest (i + 1)
  end.

(** [Schema::GetFieldIndex]: the position of the one field with that name,
    [-1] when there is none or more than one. *)
Definition GetFieldIndex (s : Schema) (nm : string) : Z :=
  match indices_of nm (fields s) 0 with
  | [i] => i
  | _ => -1
  end.

(** [Schema::field(i)]. *)
Definition field_at (s : Schema) (i : Z) : Field :=
  nth (Z.to_nat i) (fields s) (field "" null).

Inductive StatusCode : Type := OK | TypeError | Invalid | IOError.

Record Status : Type := status { code : StatusCode; message : string }.

(** [Status::TypeError(args...)] concatenates its arguments into the message. *)
Definition Status_TypeError (args : list string) : Status :=
  status TypeError (String.concat "" args).

Inductive Result (T : Type) : Type :=
  | Ok (value : T)
  | Err (st : Status).
Arguments Ok {T} value.
Arguments Err {T} st.

End arrow.

(* ================================================================== *)
(** * The signal table schema: [signal_table_schema.cpp] *)

Module mkr.
Import arrow.

(** Modelled from the spec: [uuid()] is declared in [mkr_format/types.h], which
    is not among the sources.  The read identifier is a fixed-width 128-bit
    extension type; its extension name is the one the validator below
    compares against. *)
Definition uuid : DataType := extension "minknow.uuid" (fixed_size_binary 16).

(** The column positions, in the order the validator's last line fills them. *)
Record SignalTableSchemaDescription : Type := {
  read_id : Z;
  signal : Z;
  samples : Z
}.

(** The out-parameter [field_locations], when given, is reset to the
    description's default value; the schema is the result. *)
Definition make_signal_table_schema (metadata : KeyValueMetadata) : Schema :=
  let uuid_type := uuid in
  schema
    [ field "read_id" uuid_type;
      field "signal" (large_list int16);
      field "samples" uint32 ]
    metadata.

Definition read_signal_table_schema (s : Schema) : Result SignalTableSchemaDescription :=
  let read_id_field_idx := GetFieldIndex s "read_id" in
  if read_id_field_idx =? -1 then
    Err (Status_TypeError ["Schema missing field 'read_id'"%string])
  else
  let read_id_field := field_at s read_id_field_idx in
  let read_id_type := type read_id_field in
  if negb (TypeId_eqb (id read_id_type) EXTENSION) then
    Err (Status_TypeError ["Schema field 'read_id' is incorrect type: '"%string;
                           name read_id_type; "'"%string])
  else
  if negb (String.eqb (extension_name read_id_type) "minknow.uuid") then
    Err (Status_TypeError ["Schema field 'read_id' is incorrect extension type"%string])
  else
  let signal_field_idx := GetFieldIndex s "signal" in
  if signal_field_idx =? -1 then
    Err (Status_TypeError ["Schema missing field 'signal'"%string])
  else
  let signal_field := field_at s signal_field_idx in
  let signal_type := type signal_field in
  if negb (TypeId_eqb (id signal_type) LARGE_LIST) then
    Err (Status_TypeError ["Schema field 'signal' is incorrect type: '"%string;
                           name signal_type; "'"%string])
  else
  if negb (TypeId_eqb (id (value_type signal_type)) INT16) then
    Err (Status_TypeError ["Schema field 'signal' list value type is incorrect type"%string])
  else
  let samples_field_idx := GetFieldIndex s "samples" in
  if samples_field_idx =? -1 then
    Err (Status_TypeError ["Schema missing field 'samples'"%string])
  else
  let samples_field := field_at s samples_field_idx in
  let samples_type := type samples_field in
  if negb (TypeId_eqb (id samples_type) UINT32) then
    Err (Status_TypeError ["Schema field 'samples' is incorrect type: '"%string;
                           name samples_type; "'"%string])
  else
  Ok {| read_id := read_id_field_idx;
        signal := signal_field_idx;
        samples := samples_field_idx |}.

(** ** The vocabulary of the statements about the validator *)

(** The type of the column a name resolves to. *)
Definition column_type (s : Schema) (nm : string) : DataType :=
  type (field_at s (GetFieldIndex s nm)).

(** The types the format admits for the three columns, by their shape. *)
Definition accepts_read_id (t : DataType) : bool :=
  match t with
  | extension n _ => String.eqb n "minknow.uuid"
  | _ => false
  end.

Definition accepts_signal (t : DataType) : bool :=
  match t with
  | large_list int16 => true
  | _ => false
  end.

Definition accepts_samples (t : DataType) : bool :=
  match t with
  | uint32 => true
  | _ => false
  end.

(** The three required columns, each with the test of its type. *)
Definition c_read_id : string * (DataType -> bool) := ("read_id"%string, accepts_read_id).
Definition c_signal : string * (DataType -> bool) := ("signal"%string, accepts_signal).
Definition c_samples : string * (DataType -> bool) := ("samples"%string, accepts_samples).

Definition required_columns : list (string * (DataType -> bool)) :=
  [c_read_id; c_signal; c_samples].

(** A required column is in order when its name resolves to one field and
    that field has an admitted type. *)
Definition column_ok (s : Schema) (c : string * (DataType -> bool)) : Prop :=
  GetFieldIndex s (fst c) <> -1 /\ snd c (column_type s (fst c)) = true.

(** [contains needle hay]: [needle] occurs in [hay]. *)
Fixpoint contains (needle hay : string) : bool :=
  String.prefix needle hay ||
  match hay with
  | EmptyString => false
  | String _ rest => contains needle rest
  end.

(** An error message names a column when it quotes the column's name. *)
Definition names_column (msg column : string) : bool :=
  contains ("'" ++ column ++ "'") msg.

(** The positions the three names resolve to. *)
Definition resolved (s : Schema) : SignalTableSchemaDescription :=
  {| read_id := GetFieldIndex s "read_id";
     signal := GetFieldIndex s "signal";
     samples := GetFieldIndex s "samples" |}.

(** A type with the storage type of its extension, if it is one, replaced. *)
Definition with_storage (storage : DataType) (t : DataType) : DataType :=
  match t with
  | extension n _ => extension n storage
  | _ => t
  end.

Definition field_with_storage (storage : DataType) (f : Field) : Field :=
  field (field_name f) (with_storage storage (type f)).

(** What a caller learns from a validation: nothing on acceptance, the status
    on rejection. *)
Definition verdict (r : Result SignalTableSchemaDescription) : option Status :=
  match r with
  | Ok _ => None
  | Err e => Some e
  end.

End mkr.

(* ================================================================== *)
(** * The signal table writer *)

Module SignalTableWriter.

(** Modelled from the spec: the header declares the class [SignalTableWriter],
    its three operations and its members, but the bodies of [add_read],
    [flush], [close] and [make_signal_table_writer] are not among the sources.
    The operations below follow section 4.4 of the format description; the
    members keep the header's names.  A closed writer is tested for first in
    [flush], so that both sentences of the description hold: a flush of an
    open writer without rows does nothing, and a flush after [close] fails.
    Whether the sink takes a batch is not decided by the writer: each call
    that reaches the sink carries the sink's answer. *)

Definition uuid : Type := list Z.

Record RecordBatch : Type := {
  read_id_column : list uuid;
  signal_column : list (list Z);
  samples_column : list Z;
  num_rows : Z
}.

(** The injected sink: the batches it has accepted, in order, and whether the
    end of the stream was signalled. *)
Record Sink : Type := {
  batches : list RecordBatch;
  ended : bool
}.

Inductive State : Type := Open | Closed.

Record Writer : Type := {
  m_schema : arrow.Schema;
  m_writer : Sink;
  m_read_id_builder : list uuid;
  m_signal_builder : list (list Z);
  m_samples_builder : list Z;
  m_flushed_row_count : Z;
  m_current_batch_row_count : Z;
  m_state : State
}.

Inductive WriterError : Type := EncodingFailed | WriterClosed | SinkError.

Inductive Outcome (T : Type) : Type :=
  | Success (value : T)
  | Failure (e : WriterError).
Arguments Success {T} value.
Arguments Failure {T} e.

Definition is_closed (w : Writer) : bool :=
  match m_state w with Closed => true | Open => false end.

Definition make_signal_table_writer (sink : Sink) (metadata : arrow.KeyValueMetadata)
  : Writer :=
  {| m_schema := mkr.make_signal_table_schema metadata;
     m_writer := sink;
     m_read_id_builder := [];
     m_signal_builder := [];
     m_samples_builder := [];
     m_flushed_row_count := 0;
     m_current_batch_row_count := 0;
     m_state := Open |}.

Section Operations.
Context {zstd : Zstd} {config : BuildConfig}.

Definition add_read (read_id : uuid) (samples : list Z) (w : Writer)
  : Outcome Z * Writer :=
  if is_closed w then (Failure WriterClosed, w)
  else
    match compress_signal samples (len samples) with
    | None => (Failure EncodingFailed, w)
    | Some (payload, _) =>
        let w' :=
          {| m_schema := m_schema w;
             m_writer := m_writer w;
             m_read_id_builder := m_read_id_builder w ++ [read_id];
             m_signal_builder := m_signal_builder w ++ [payload];
             m_samples_builder := m_samples_builder w ++ [len samples];
             m_flushed_row_count := m_flushed_row_count w;
             m_current_batch_row_count := m_current_batch_row_count w + 1;
             m_state := m_state w |} in
        (Success (m_flushed_row_count w' + m_current_batch_row_count w' - 1), w')
    end.

Definition current_batch (w : Writer) : RecordBatch :=
  {| read_id_column := m_read_id_builder w;
     signal_column := m_signal_builder w;
     samples_column := m_samples_builder w;
     num_rows := m_current_batch_row_count w |}.

Definition flush (sink_accepts : bool) (w : Writer) : Outcome unit * Writer :=
  if is_closed w then (Failure WriterClosed, w)
  else if m_current_batch_row_count w =? 0 then (Success tt, w)
  else if sink_accepts then
    (Success tt,
     {| m_schema := m_schema w;
        m_writer := {| batches := batches (m_writer w) ++ [current_batch w];
                       ended := ended (m_writer w) |};
        m_read_id_builder := [];
        m_signal_builder := [];
        m_samples_builder := [];
        m_flushed_row_count := m_flushed_row_count w + m_current_batch_row_count w;
        m_current_batch_row_count := 0;
        m_state := m_state w |})
  else (Failure SinkError, w).

Definition close (sink_accepts : bool) (w : Writer) : Outcome unit * Writer :=
  if is_closed w then (Success tt, w)
  else
    match flush sink_accepts w with
    | (Failure e, w') => (Failure e, w')
    | (Success _, w') =>
        (Success tt,
         {| m_schema := m_schema w';
            m_writer := {| batches := batches (m_writer w'); ended := true |};
            m_read_id_builder := [];
            m_signal_builder := [];
            m_samples_builder := [];
            m_flushed_row_count := m_flushed_row_count w';
            m_current_batch_row_count := m_current_batch_row_count w';
            m_state := Closed |})
    end.

(** A caller's use of a writer: a sequence of calls, each with its reply. *)
Inductive Call : Type :=
  | call_add_read (read_id : uuid) (samples : list Z)
  | call_flush (sink_accepts : bool)
  | call_close (sink_accepts : bool).

Inductive Reply : Type :=
  | row_index (i : Z)
  | done
  | failed (e : WriterError).

Definition step (c : Call) (w : Writer) : Reply * Writer :=
  match c with
  | call_add_read read_id samples =>
      match add_read read_id samples w with
      | (Success i, w') => (row_index i, w')
      | (Failure e, w') => (failed e, w')
      end
  | call_flush a =>
      match flush a w with
      | (Success _, w') => (done, w')
      | (Failure e, w') => (failed e, w')
      end
  | call_close a =>
      match close a w with
      | (Success _, w') => (done, w')
      | (Failure e, w') => (failed e, w')
      end
  end.

Fixpoint run (calls : list Call) (w : Writer) : list Reply * Writer :=
  match calls with
  | [] => ([], w)
  | c :: rest =>
      let '(r, w') := step c w in
      let '(rs, w'') := run rest w' in
      (r :: rs, w'')
  end.

(** The row indices among the replies, in call order. *)
Fixpoint returned_indices (rs : list Reply) : list Z :=
  match rs with
  | [] => []
  | row_index i :: rest => i :: returned_indices rest
  | _ :: rest => returned_indices rest
  end.

End Operations.

(** The table a reader sees: every accepted batch, in order, followed by the
    rows still buffered. *)
Definition all_read_ids (w : Writer) : list uuid :=
  flat_map read_id_column (batches (m_writer w)) ++ m_read_id_builder w.
Definition all_signals (w : Writer) : list (list Z) :=
  flat_map signal_column (batches (m_writer w)) ++ m_signal_builder w.
Definition all_samples (w : Writer) : list Z :=
  flat_map samples_column (batches (m_writer w)) ++ m_samples_builder w.

Definition empty_sink : Sink := {| batches := []; ended := false |}.

(** The global row count: rows handed to the sink and rows still buffered. *)
Definition total_rows (w : Writer) : Z :=
  m_flushed_row_count w + m_current_batch_row_count w.

(** What every writer built by [make_signal_table_writer] and driven through
    the three operations satisfies: the two counters count the rows of the
    builders and of the accepted batches, and the three columns advance
    together. *)
Record consistent (w : Writer) : Prop := {
  rows_current : m_current_batch_row_count w = Z.of_nat (length (m_read_id_builder w));
  rows_signal : length (m_signal_builder w) = length (m_read_id_builder w);
  rows_samples : length (m_samples_builder w) = length (m_read_id_builder w);
  rows_flushed : m_flushed_row_count w
                 = Z.of_nat (length (flat_map read_id_column (batches (m_writer w))));
  flushed_signal : length (flat_map signal_column (batches (m_writer w)))
                   = length (flat_map read_id_column (batches (m_writer w)));
  flushed_samples : length (flat_map samples_column (batches (m_writer w)))
                    = length (flat_map read_id_column (batches (m_writer w)))
}.

(** [grows w w' added]: the table of [w'] is the table of [w] followed by the
    rows [added], column by column. *)
Definition grows (w w' : Writer) (ids : list uuid) (sigs : list (list Z)) (cnts : list Z)
  : Prop :=
  all_read_ids w' = all_read_ids w ++ ids /\
  all_signals w' = all_signals w ++ sigs /\
  all_samples w' = all_samples w ++ cnts.

End SignalTableWriter.

(* ================================================================== *)
(** * Sample data *)

Module scenarios.
Import SignalTableWriter stored.

(** The frame of the one-sample buffer [[1]]: the header and the two bytes of
    its encoding, a descriptor byte and a payload byte. *)
Definition frame_of_1 : list Z := [40; 181; 47; 253; 2; 0; 0; 0; 0; 0; 0; 0; 0; 2].

(** The buffer of the format description's end-to-end scenario. *)
Definition scenario : list Z := [0; 1; 1; 0; -1; -32768; 32767].

Definition id_a : uuid := repeat 10 16.
Definition id_b : uuid := repeat 11 16.
Definition id_c : uuid := repeat 12 16.

(** Two reads, an accepted flush between them, a refused flush after them. *)
Definition session : list Call :=
  [call_add_read id_a [1]; call_flush true; call_add_read id_b [2; 3]; call_flush false].

Definition after_session : list Reply * Writer :=
  Eval vm_compute in run session (make_signal_table_writer empty_sink []).

Definition third_read : Outcome Z * Writer :=
  Eval vm_compute in add_read id_c scenario (snd after_session).

(** The zstd frame of the two bytes that encode [[1]]: magic number, a
    single-segment header with content size 2, one raw last block. *)
Definition raw_frame_of_1 : list Z := [40; 181; 47; 253; 32; 2; 17; 0; 0; 0; 2].

(** A frame header that announces five bytes of content, with nothing after
    it. *)
Definition header_only : list Z := [40; 181; 47; 253; 32; 5].

End scenarios.

Example encode_scenario :
  svb16.encode [0; 1; 1; 0; -1; -32768; 32767]
  = [0; 4; 0; 2; 0; 1; 1; 253; 255; 1] /\
  svb16.decode (svb16.encode [0; 1; 1; 0; -1; -32768; 32767]) 7
  = Some ([0; 1; 1; 0; -1; -32768; 32767], 10%nat).
Proof. vm_compute. split; reflexivity. Qed.

Example stored_scenario :
  @compress_signal stored.zstd stored.config [1] 1 = Some ([40; 181; 47; 253; 2; 0; 0; 0; 0; 0; 0; 0; 0; 2], 14) /\
  @decompress_signal stored.zstd 1 [40; 181; 47; 253; 2; 0; 0; 0; 0; 0; 0; 0; 0; 2] 14 = Some [1] /\
  @decompress_signal stored.zstd 0 [40; 181; 47; 253; 2; 0; 0; 0; 0; 0; 0; 0; 0; 2] 14 = None /\
  @decompress_signal stored.zstd 1 [40; 181; 47; 253; 2; 0; 0; 0; 0; 0; 0; 0; 0; 2] 1 = None.
Proof. vm_compute. repeat split; reflexivity. Qed.

Example schema_scenario :
  mkr.read_signal_table_schema (mkr.make_signal_table_schema [])
  = arrow.Ok {| mkr.read_id := 0; mkr.signal := 1; mkr.samples := 2 |} /\
  mkr.read_signal_table_schema
    (arrow.schema [arrow.field "read_id" mkr.uuid;
                   arrow.field "payload" (arrow.large_list arrow.int16);
                   arrow.field "sample_count" arrow.uint32] [])
  = arrow.Err (arrow.status arrow.TypeError "Schema missing field 'signal'").
Proof. vm_compute. split; reflexivity. Qed.

(* ================================================================== *)
(** * Properties of the transform *)

Module svb16_facts.
Import svb16.

Ltac divmod := Z.div_mod_to_equations; lia.

Lemma to_int16_id x : is_int16 x -> to_int16 x = x.
Proof.
  unfold is_int16, to_int16; intros H.
  destruct (Z.ltb_spec (x mod 65536) 32768); divmod.
Qed.

Lemma to_int16_range x : is_int16 (to_int16 x).
Proof.
  unfold is_int16, to_int16.
  destruct (Z.ltb_spec (x mod 65536) 32768); divmod.
Qed.

Lemma to_int16_congr x y : (x - y) mod 65536 = 0 -> to_int16 x = to_int16 y.
Proof.
  intros H. unfold to_int16.
  replace (x mod 65536) with (y mod 65536); [reflexivity|].
  divmod.
Qed.

Lemma to_int16_mod x : (to_int16 x - x) mod 65536 = 0.
Proof.
  unfold to_int16.
  destruct (Z.ltb_spec (x mod 65536) 32768); divmod.
Qed.

Lemma land_1 a : Z.land a 1 = a mod 2.
Proof. exact (Z.land_ones a 1 ltac:(lia)). Qed.

(** The zigzag map in closed form: [0, -1, 1, -2, ...] go to [0, 1, 2, 3, ...]. *)
Lemma zigzag_encode_closed x :
  is_int16 x -> zigzag_encode x = if x <? 0 then - 2 * x - 1 else 2 * x.
Proof.
  unfold is_int16, zigzag_encode, to_uint16; intros H.
  rewrite Z.shiftl_mul_pow2, Z.shiftr_div_pow2 by lia.
  change (2 ^ 1) with 2; change (2 ^ 15) with 32768.
  destruct (Z.ltb_spec x 0).
  - replace (x / 32768) with (-1) by divmod.
    rewrite Z.lxor_m1_r. unfold Z.lnot. divmod.
  - replace (x / 32768) with 0 by divmod.
    rewrite Z.lxor_0_r. divmod.
Qed.

Lemma zigzag_encode_range x : is_int16 x -> is_uint16 (zigzag_encode x).
Proof.
  intros H. rewrite zigzag_encode_closed by assumption.
  unfold is_int16, is_uint16 in *. destruct (Z.ltb_spec x 0); lia.
Qed.

Lemma zigzag_decode_encode x : is_int16 x -> zigzag_decode (zigzag_encode x) = x.
Proof.
  intros H. rewrite zigzag_encode_closed by assumption.
  unfold zigzag_decode. unfold is_int16 in H.
  rewrite land_1, Z.shiftr_div_pow2 by lia.
  change (2 ^ 1) with 2.
  destruct (Z.ltb_spec x 0).
  - replace ((- 2 * x - 1) mod 2) with 1 by divmod.
    replace ((- 2 * x - 1) / 2) with (- x - 1) by divmod.
    change (- (1)) with (-1). rewrite Z.lxor_m1_r. unfold Z.lnot.
    replace (Z.pred (- (- x - 1))) with x by lia.
    apply to_int16_id. unfold is_int16; lia.
  - replace ((2 * x) mod 2) with 0 by divmod.
    replace (2 * x / 2) with x by divmod.
    change (- 0) with 0. rewrite Z.lxor_0_r.
    apply to_int16_id. unfold is_int16; lia.
Qed.

Lemma delta_zigzag_roundtrip samples : forall prev,
  is_int16 prev -> Forall is_int16 samples ->
  delta_decode prev (map zigzag_decode (map zigzag_encode (delta_encode prev samples)))
  = samples.
Proof.
  induction samples as [|x rest IH]; intros prev Hp Hs; [reflexivity|].
  inversion Hs as [|? ? Hx Hrest]; subst. cbn [delta_encode map delta_decode].
  rewrite zigzag_decode_encode by apply to_int16_range.
  assert (E : to_int16 (prev + to_int16 (x - prev)) = x).
  { rewrite <- (to_int16_id x Hx) at 2. apply to_int16_congr.
    pose proof (to_int16_mod (x - prev)). divmod. }
  cbv zeta. rewrite E. f_equal. apply IH; assumption.
Qed.

Lemma zigzag_deltas_range samples :
  Forall is_uint16 (zigzag_deltas samples).
Proof.
  unfold zigzag_deltas. generalize 0.
  induction samples as [|x rest IH]; intros prev; cbn; constructor.
  - apply zigzag_encode_range, to_int16_range.
  - apply IH.
Qed.

Lemma zigzag_deltas_length samples : length (zigzag_deltas samples) = length samples.
Proof.
  unfold zigzag_deltas. rewrite length_map. generalize 0.
  induction samples as [|x rest IH]; intros prev; cbn; [reflexivity|].
  now rewrite IH.
Qed.

(** ** Payload bytes *)

Lemma lor_low_high v : 0 <= v -> Z.lor (Z.land v 255) (Z.shiftl (Z.shiftr v 8) 8) = v.
Proof.
  intros Hv. apply Z.bits_inj'. intros n Hn.
  rewrite Z.lor_spec, Z.land_spec.
  change 255 with (Z.ones 8).
  destruct (Z.lt_ge_cases n 8) as [Hlt|Hge].
  - rewrite Z.ones_spec_low, Z.shiftl_spec_low by lia.
    now rewrite andb_true_r, orb_false_r.
  - rewrite Z.ones_spec_high, Z.shiftl_spec, Z.shiftr_spec by lia.
    rewrite andb_false_r. cbn [orb]. f_equal. lia.
Qed.

Lemma payload_bytes_length v : (1 <= length (payload_bytes v) <= 2)%nat.
Proof. unfold payload_bytes. destruct (v <? 256); cbn; lia. Qed.

Lemma payload_bytes_are_bytes v : is_uint16 v -> Forall is_byte (payload_bytes v).
Proof.
  unfold is_uint16, is_byte, payload_bytes. intros H.
  destruct (Z.ltb_spec v 256).
  - repeat constructor; lia.
  - change 255 with (Z.ones 8). rewrite Z.land_ones, Z.shiftr_div_pow2 by lia.
    change (2 ^ 8) with 256. repeat constructor; divmod.
Qed.

Lemma length_code_bit v : length_code v = 0 \/ length_code v = 1.
Proof. unfold length_code. destruct (v <? 256); auto. Qed.

Lemma unpack_values_payload vals : forall rest,
  Forall is_uint16 vals ->
  unpack_values (map length_code vals) (flat_map payload_bytes vals ++ rest)
  = Some (vals, rest).
Proof.
  induction vals as [|v vs IH]; intros rest H; [reflexivity|].
  inversion H as [|? ? Hv Hvs]; subst.
  cbn [map flat_map unpack_values]. unfold length_code, payload_bytes.
  destruct (Z.ltb_spec v 256); cbn [Z.eqb app]; rewrite <- ?app_assoc.
  - cbn [app]. now rewrite IH.
  - cbn [app]. rewrite IH by assumption.
    rewrite lor_low_high by (unfold is_uint16 in Hv; lia). reflexivity.
Qed.

(** ** Descriptor bytes *)

Lemma list_ind4 {A} (P : list A -> Prop) :
  P [] -> (forall a, P [a]) -> (forall a b, P [a; b]) -> (forall a b c, P [a; b; c]) ->
  (forall a b c d rest, P rest -> P (a :: b :: c :: d :: rest)) ->
  forall l, P l.
Proof.
  intros H0 H1 H2 H3 H4.
  fix IH 1. intros [|a [|b [|c [|d rest]]]].
  - exact H0.
  - apply H1.
  - apply H2.
  - apply H3.
  - apply H4, IH.
Qed.

Lemma pack_descriptors_length codes :
  length (pack_descriptors codes) = key_length (length codes).
Proof.
  pattern codes; apply list_ind4; clear codes; try reflexivity.
  intros a b c d rest IH.
  cbn [pack_descriptors length]. rewrite IH. unfold key_length.
  replace (S (S (S (S (length rest)))) + 3)%nat with (length rest + 3 + 1 * 4)%nat by lia.
  rewrite Nat.div_add by lia. lia.
Qed.

Ltac split_codes :=
  repeat match goal with
    | H : Forall is_code (_ :: _) |- _ =>
        apply Forall_cons_iff in H; destruct H as [[? | ?] H]; subst
    end.

Lemma unpack_pack_descriptors codes :
  Forall is_code codes ->
  firstn (length codes) (unpack_descriptors (pack_descriptors codes)) = codes.
Proof.
  pattern codes; apply list_ind4; clear codes;
    [|intros a|intros a b|intros a b c|intros a b c d rest IH]; intros H.
  - reflexivity.
  - split_codes; reflexivity.
  - split_codes; reflexivity.
  - split_codes; reflexivity.
  - apply Forall_cons_iff in H; destruct H as [Ha H].
    apply Forall_cons_iff in H; destruct H as [Hb H].
    apply Forall_cons_iff in H; destruct H as [Hc H].
    apply Forall_cons_iff in H; destruct H as [Hd H].
    cbn [pack_descriptors unpack_descriptors flat_map length].
    fold (unpack_descriptors (pack_descriptors rest)).
    assert (E : unpack_key (key_byte a b c d) = [a; b; c; d])
      by (destruct Ha, Hb, Hc, Hd; subst; reflexivity).
    rewrite E. cbn [app firstn]. now rewrite IH.
Qed.

Lemma key_byte_is_byte a b c d :
  is_code a -> is_code b -> is_code c -> is_code d -> is_byte (key_byte a b c d).
Proof.
  unfold is_code, is_byte.
  intros [-> | ->] [-> | ->] [-> | ->] [-> | ->]; cbv; split; congruence.
Qed.

(** ** The transform as a whole *)

Lemma encode_length samples :
  (length (encode samples) <= key_length (length samples) + 2 * length samples)%nat.
Proof.
  unfold encode. cbv zeta.
  rewrite length_app, pack_descriptors_length, length_map, zigzag_deltas_length.
  assert (H : forall vals, (length (flat_map payload_bytes vals) <= 2 * length vals)%nat).
  { induction vals as [|v vs IH]; cbn [flat_map length]; [lia|].
    rewrite length_app. pose proof (payload_bytes_length v). lia. }
  specialize (H (zigzag_deltas samples)). rewrite zigzag_deltas_length in H. lia.
Qed.

Lemma key_length_Z n : Z.of_nat (key_length n) = (Z.of_nat n + 3) / 4.
Proof.
  unfold key_length. rewrite Nat2Z.inj_div, Nat2Z.inj_add. reflexivity.
Qed.

Lemma pack_descriptors_bytes codes :
  Forall is_code codes -> Forall is_byte (pack_descriptors codes).
Proof.
  assert (Z0 : is_code 0) by (now left).
  pattern codes; apply list_ind4; clear codes;
    [|intros a|intros a b|intros a b c|intros a b c d rest IH]; intros H;
    cbn [pack_descriptors];
    repeat match goal with
      | H : Forall is_code (_ :: _) |- _ =>
          apply Forall_cons_iff in H; destruct H as [? H]
      end;
    [constructor | | | |];
    (apply Forall_cons; [now apply key_byte_is_byte | auto]).
Qed.

(** Every element of an encoding is a byte. *)
Lemma encode_bytes samples : Forall is_byte (encode samples).
Proof.
  unfold encode. cbv zeta. apply Forall_app. split.
  - apply pack_descriptors_bytes. apply Forall_forall. intros c Hc.
    apply in_map_iff in Hc. destruct Hc as [v [<- _]]. apply length_code_bit.
  - pose proof (zigzag_deltas_range samples) as H.
    induction H as [|v vs Hv _ IH]; cbn [flat_map]; [constructor|].
    apply Forall_app. split; [now apply payload_bytes_are_bytes | exact IH].
Qed.

(** The closed form bounds every encoding. *)
Lemma encode_max_length samples :
  len (encode samples) <= svb16_max_encoded_length (len samples).
Proof.
  unfold len, svb16_max_encoded_length. rewrite <- key_length_Z.
  pose proof (encode_length samples). lia.
Qed.

(** Decoding an encoding with the number of samples that produced it gives
    the samples back and consumes exactly the encoding, whatever follows it. *)
Lemma decode_encode samples trailing :
  Forall is_int16 samples ->
  decode (encode samples ++ trailing) (length samples)
  = Some (samples, length (encode samples)).
Proof.
  intros Hs. unfold decode, encode. cbv zeta.
  set (vals := zigzag_deltas samples).
  set (keys := pack_descriptors (map length_code vals)).
  assert (Hk : length keys = key_length (length samples)).
  { unfold keys, vals. now rewrite pack_descriptors_length, length_map, zigzag_deltas_length. }
  rewrite <- Hk.
  destruct (Nat.ltb_spec (length ((keys ++ flat_map payload_bytes vals) ++ trailing))
              (length keys)) as [Hlt|_].
  { rewrite !length_app in Hlt. lia. }
  rewrite <- app_assoc.
  rewrite firstn_app, Nat.sub_diag, firstn_all, firstn_O, app_nil_r.
  rewrite skipn_app, Nat.sub_diag, skipn_all, skipn_O. cbn [app].
  replace (length samples) with (length (map length_code vals))
    by (unfold vals; now rewrite length_map, zigzag_deltas_length).
  unfold keys. rewrite unpack_pack_descriptors.
  2:{ apply Forall_forall. intros c Hc. apply in_map_iff in Hc.
      destruct Hc as [v [<- _]]. apply length_code_bit. }
  rewrite unpack_values_payload by apply zigzag_deltas_range.
  f_equal. f_equal.
  - unfold vals, zigzag_deltas. apply delta_zigzag_roundtrip; [|assumption].
    unfold is_int16; lia.
  - rewrite !length_app. lia.
Qed.

End svb16_facts.

(* ================================================================== *)
(** * The reference compressor honours the zstd interface *)

Module stored_facts.
Import stored.

Lemma le_bytes_length n x : length (le_bytes n x) = n.
Proof. revert x; induction n; intros; cbn; [reflexivity | now rewrite IHn]. Qed.

Lemma le_value_le_bytes n : forall x,
  0 <= x < 256 ^ Z.of_nat n -> le_value (le_bytes n x) = x.
Proof.
  induction n as [|n IH]; intros x Hx.
  - cbn in *. lia.
  - cbn [le_bytes le_value].
    rewrite IH.
    + Z.div_mod_to_equations; lia.
    + rewrite Nat2Z.inj_succ, Z.pow_succ_r in Hx by lia.
      Z.div_mod_to_equations; nia.
Qed.

Lemma isError_size x : x < 2 ^ 63 -> ZSTD_isError x = false.
Proof. unfold ZSTD_isError, ZSTD_error_maxCode. intros. apply Z.ltb_ge. lia. Qed.

Lemma frame_header content src :
  0 <= len src < 2 ^ 62 ->
  getFrameContentSize (magic ++ le_bytes 8 (len src) ++ content) = len src /\
  skipn 12 (magic ++ le_bytes 8 (len src) ++ content) = content.
Proof.
  intros Hs. split.
  - unfold getFrameContentSize.
    replace (len (magic ++ le_bytes 8 (len src) ++ content) <? header_size) with false.
    2:{ symmetry. apply Z.ltb_ge. unfold len at 1.
        rewrite !length_app, le_bytes_length. cbn. unfold header_size. lia. }
    cbn -[le_value Z.div Z.modulo].
    apply (le_value_le_bytes 8). change (256 ^ Z.of_nat 8) with (2 ^ 64). lia.
  - reflexivity.
Qed.

Lemma stored_writes_its_size : compress_writes_its_size.
Proof.
  intros cap src level. cbn. unfold compress.
  destruct (2 ^ 62 <=? len src); [discriminate|].
  destruct (Z.ltb_spec cap (len src + header_size)); [discriminate|].
  intros _. split; [|assumption].
  unfold len. rewrite !length_app, le_bytes_length. cbn. unfold header_size. lia.
Qed.

Lemma stored_succeeds_within_bound : compress_succeeds_within_bound.
Proof.
  intros cap src level. cbn. unfold compressBound, compress.
  destruct (Z.ltb_spec (len src) (2 ^ 62)); [|discriminate].
  intros _ Hcap.
  destruct (Z.leb_spec (2 ^ 62) (len src)); [lia|].
  destruct (Z.ltb_spec cap (len src + header_size)); [lia|].
  cbn. apply isError_size. unfold header_size. lia.
Qed.

Lemma stored_compressBound_monotone : compressBound_monotone.
Proof.
  intros a b H. cbn. unfold compressBound, header_size, ZSTD_error_srcSize_wrong.
  destruct (Z.ltb_spec a (2 ^ 62)), (Z.ltb_spec b (2 ^ 62)); lia.
Qed.

Lemma stored_frame_round_trip : frame_round_trip.
Proof.
  intros cap src level. cbn. unfold compress.
  destruct (Z.leb_spec (2 ^ 62) (len src)); [discriminate|].
  destruct (Z.ltb_spec cap (len src + header_size)); [discriminate|].
  intros _.
  assert (Hs : 0 <= len src < 2 ^ 62) by (unfold len in *; lia).
  destruct (frame_header src src Hs) as [Hsize Hskip].
  repeat split.
  - apply isError_size. lia.
  - exact Hsize.
  - unfold decompress. rewrite Hsize, Hskip.
    rewrite isError_size by lia. rewrite Z.eqb_refl, Z.ltb_irrefl. reflexivity.
Qed.

Lemma stored_truncated_frame_refused : truncated_frame_refused.
Proof.
  intros cap src level k. cbn. unfold compress.
  destruct (Z.leb_spec (2 ^ 62) (len src)); [discriminate|].
  destruct (Z.ltb_spec cap (len src + header_size)); [discriminate|].
  intros _ Hk.
  assert (Hs : 0 <= len src < 2 ^ 62) by (unfold len in *; lia).
  rewrite !length_app, le_bytes_length in Hk. cbn [length magic] in Hk.
  destruct (Nat.lt_ge_cases k 12) as [Hshort|Hlong].
  - left. unfold getFrameContentSize.
    replace (len (firstn k (magic ++ le_bytes 8 (len src) ++ src)) <? header_size) with true.
    + reflexivity.
    + symmetry. apply Z.ltb_lt. unfold len at 1, header_size.
      rewrite length_firstn. lia.
  - right.
    assert (E : firstn k (magic ++ le_bytes 8 (len src) ++ src)
                = magic ++ le_bytes 8 (len src) ++ firstn (k - 12) src).
    { rewrite app_assoc, firstn_app, length_app, le_bytes_length. cbn [length magic].
      rewrite firstn_all2 by (rewrite length_app, le_bytes_length; cbn; lia).
      now rewrite <- app_assoc. }
    rewrite E.
    destruct (frame_header (firstn (k - 12) src) src Hs) as [Hsize Hskip].
    unfold decompress. rewrite Hsize, Hskip.
    rewrite (isError_size (len src)) by lia.
    replace (len (firstn (k - 12) src) =? len src) with false.
    + reflexivity.
    + symmetry. apply Z.eqb_neq. unfold len. rewrite length_firstn. lia.
Qed.

End stored_facts.

(* ================================================================== *)
(** * The signal codec *)

Section SignalCompressionFacts.
Context {zstd : Zstd} {config : BuildConfig}.

Lemma firstn_len (l : list Z) : firstn (Z.to_nat (len l)) l = l.
Proof. unfold len. rewrite Nat2Z.id. apply firstn_all. Qed.

Lemma isError_below a b : a <= b -> ZSTD_isError b = false -> ZSTD_isError a = false.
Proof. unfold ZSTD_isError. rewrite !Z.ltb_ge. lia. Qed.

Lemma to_uint32_le x : 0 <= x -> 0 <= to_uint32 x <= x.
Proof.
  intros H. unfold to_uint32. split.
  - apply Z.mod_pos_bound. lia.
  - apply Z.mod_le; lia.
Qed.

Lemma to_uint32_small x : 0 <= x < 2 ^ 32 -> to_uint32 x = x.
Proof. intros H. unfold to_uint32. apply Z.mod_small. exact H. Qed.

Lemma max_encoded_length_nonneg n : 0 <= n -> 0 <= svb16_max_encoded_length n.
Proof. unfold svb16_max_encoded_length. intros. Z.div_mod_to_equations; lia. Qed.

(** The exits of [compress_signal], read off its result. *)
Lemma compress_signal_some samples count destination n :
  compress_signal samples count = Some (destination, n) <->
  ZSTD_isError (compressed_signal_max_size count) = false /\
  ZSTD_compress (compressed_signal_max_size count)
    (svb16.encode (firstn (Z.to_nat count) samples)) SLOW5_ZSTD_COMPRESS_LEVEL
  = (n, destination) /\
  ZSTD_isError n = false.
Proof.
  unfold compress_signal, compressed_signal_max_size. cbv zeta.
  destruct (ZSTD_isError (ZSTD_compressBound _)).
  { split; [discriminate | intros [H _]; discriminate]. }
  destruct (ZSTD_compress _ _ _) as [code dst].
  destruct (ZSTD_isError code) eqn:E.
  - split; [discriminate|]. intros [_ [H1 H2]]. inversion H1; subst. congruence.
  - split.
    + intros H. inversion H; subst. auto.
    + intros [_ [H1 _]]. inversion H1; subst. reflexivity.
Qed.

Lemma compress_signal_none samples count :
  compress_signal samples count = None <->
  ZSTD_isError (compressed_signal_max_size count) = true \/
  ZSTD_isError (fst (ZSTD_compress (compressed_signal_max_size count)
    (svb16.encode (firstn (Z.to_nat count) samples)) SLOW5_ZSTD_COMPRESS_LEVEL)) = true.
Proof.
  unfold compress_signal, compressed_signal_max_size. cbv zeta.
  destruct (ZSTD_isError (ZSTD_compressBound _)).
  { split; auto. }
  destruct (ZSTD_compress _ _ _) as [code dst]. cbn [fst].
  destruct (ZSTD_isError code); split; auto; try discriminate.
  intros [H | H]; discriminate.
Qed.

(** With the number of samples in the place of the indeterminate
    [destination], decompression inverts compression. *)
Lemma decompress_signal_with_sample_count samples compressed n :
  compress_writes_its_size -> frame_round_trip ->
  Forall is_int16 samples ->
  compress_signal samples (len samples) = Some (compressed, n) ->
  decompress_signal (len samples) compressed n = Some samples.
Proof.
  intros Hfits Hframe Hs Hc.
  apply compress_signal_some in Hc. destruct Hc as [_ [Hz Hn]].
  rewrite firstn_len in Hz.
  specialize (Hfits (compressed_signal_max_size (len samples))
                (svb16.encode samples) SLOW5_ZSTD_COMPRESS_LEVEL).
  specialize (Hframe (compressed_signal_max_size (len samples))
                (svb16.encode samples) SLOW5_ZSTD_COMPRESS_LEVEL).
  rewrite Hz in Hfits, Hframe.
  destruct (Hfits Hn) as [Hlen _]. destruct (Hframe Hn) as [He [Hsize Hd]].
  unfold decompress_signal. cbv zeta.
  rewrite <- Hlen, firstn_len, Hsize, He, Hd, He.
  replace (Z.to_nat (len samples)) with (length samples)
    by (unfold len; now rewrite Nat2Z.id).
  rewrite <- (app_nil_r (svb16.encode samples)) at 1.
  rewrite svb16_facts.decode_encode by assumption.
  unfold len. now rewrite Z.eqb_refl.
Qed.

(** ** The functions as written *)

(** The exits of [as_written.compress_signal]. *)
Lemma as_written_compress_cases compression_size samples count :
  let max_size := to_uint32 (svb16_max_encoded_length count) in
  let intermediate := svb16.encode (firstn (Z.to_nat count) samples) in
  let cap := compressed_signal_max_size count in
  let z := ZSTD_compress cap intermediate SLOW5_ZSTD_COMPRESS_LEVEL in
  as_written.compress_signal compression_size samples count
  = if max_size <? len intermediate then Undefined
    else if ZSTD_isError cap || ZSTD_isError (fst z) then Returns None
    else Returns (Some (snd z, compression_size)).
Proof.
  unfold as_written.compress_signal, compressed_signal_max_size. cbv zeta.
  destruct (_ <? _); [reflexivity|].
  destruct (ZSTD_isError (ZSTD_compressBound _)); [reflexivity|].
  destruct (ZSTD_compress _ _ _) as [code dst]. cbn [fst snd orb].
  destruct (ZSTD_isError code); reflexivity.
Qed.

(** Where the function as written returns, it returns what the value-level
    reading computes, with [compression_size] in the place of the size. *)
Lemma as_written_compress_returns compression_size samples count r :
  as_written.compress_signal compression_size samples count = Returns r ->
  r = option_map (fun p => (fst p, compression_size)) (compress_signal samples count).
Proof.
  unfold as_written.compress_signal, compress_signal. cbv zeta.
  destruct (_ <? _); [discriminate|].
  destruct (ZSTD_isError (ZSTD_compressBound _)); [now inversion 1|].
  destruct (ZSTD_compress _ _ _) as [code dst].
  destruct (ZSTD_isError code); now inversion 1.
Qed.

(** The exits of [as_written.decompress_signal]: it returns, and then the
    null result, exactly when zstd reports an error. *)
Lemma as_written_decompress_cases compressed_bytes count :
  let src := firstn (Z.to_nat count) compressed_bytes in
  let size := ZSTD_getFrameContentSize src in
  as_written.decompress_signal compressed_bytes count
  = if ZSTD_isError size || ZSTD_isError (fst (ZSTD_decompress size src))
    then Returns None else Undefined.
Proof.
  unfold as_written.decompress_signal. cbv zeta.
  destruct (ZSTD_isError (ZSTD_getFrameContentSize _)); [reflexivity|].
  destruct (ZSTD_decompress _ _) as [res intermediate]. cbn [fst orb].
  destruct (ZSTD_isError res); reflexivity.
Qed.

(** At these exits the value-level reading gives the null result too,
    whatever [destination] holds. *)
Lemma as_written_decompress_returns compressed_bytes count r :
  as_written.decompress_signal compressed_bytes count = Returns r ->
  r = None /\ forall destination, decompress_signal destination compressed_bytes count = None.
Proof.
  unfold as_written.decompress_signal, decompress_signal. cbv zeta.
  destruct (ZSTD_isError (ZSTD_getFrameContentSize _)); [now inversion 1|].
  destruct (ZSTD_decompress _ _) as [res intermediate].
  destruct (ZSTD_isError res); [now inversion 1 | discriminate].
Qed.

Lemma encode_min_length samples :
  Z.of_nat (svb16.key_length (length samples)) + len samples <= len (svb16.encode samples).
Proof.
  unfold svb16.encode, len. cbv zeta.
  rewrite length_app, svb16_facts.pack_descriptors_length, length_map,
    svb16_facts.zigzag_deltas_length.
  assert (H : forall vals, (length vals <= length (flat_map svb16.payload_bytes vals))%nat).
  { induction vals as [|v vs IH]; cbn [flat_map length]; [lia|].
    rewrite length_app. pose proof (svb16_facts.payload_bytes_length v). lia. }
  specialize (H (svb16.zigzag_deltas samples)).
  rewrite svb16_facts.zigzag_deltas_length in H. lia.
Qed.

(** While the maximum encoded length fits 32 bits the encoder stays inside
    [intermediate]. *)
Lemma encoder_stays_inside samples :
  svb16_max_encoded_length (len samples) < 2 ^ 32 ->
  (to_uint32 (svb16_max_encoded_length (len samples))
   <? len (svb16.encode (firstn (Z.to_nat (len samples)) samples))) = false.
Proof.
  intros Hfit. rewrite firstn_len. apply Z.ltb_ge.
  rewrite to_uint32_small.
  - apply svb16_facts.encode_max_length.
  - split; [|assumption]. apply max_encoded_length_nonneg. unfold len; lia.
Qed.

(** For every buffer whose maximum encoded length does not fit 32 bits, that
    is from 1908874354 samples on, the encoder writes past the end of
    [intermediate]: the allocation has fewer than [2 ^ 32] bytes, and less
    than the encoding, which alone takes more than a byte per sample. *)
Lemma encoder_overruns_intermediate compression_size samples :
  2 ^ 32 <= svb16_max_encoded_length (len samples) ->
  as_written.compress_signal compression_size samples (len samples) = Undefined.
Proof.
  intros Hwrap. rewrite as_written_compress_cases. cbv zeta.
  rewrite firstn_len.
  replace (_ <? _) with true; [reflexivity|].
  symmetry. apply Z.ltb_lt.
  pose proof (encode_min_length samples) as Hmin.
  rewrite svb16_facts.key_length_Z in Hmin. fold (len samples) in Hmin.
  assert (Hmod : to_uint32 (svb16_max_encoded_length (len samples))
                 <= svb16_max_encoded_length (len samples) - 2 ^ 32).
  { unfold to_uint32.
    rewrite <- (Z.mod_add _ (-1) (2 ^ 32)) by lia.
    replace (svb16_max_encoded_length (len samples) + -1 * 2 ^ 32)
      with (svb16_max_encoded_length (len samples) - 2 ^ 32) by lia.
    apply Z.mod_le; lia. }
  assert (Hlt : to_uint32 (svb16_max_encoded_length (len samples)) < 2 ^ 32)
    by (unfold to_uint32; apply Z.mod_pos_bound; lia).
  destruct (Z.lt_ge_cases (len samples) (2 ^ 32)) as [Hn|Hn].
  - unfold svb16_max_encoded_length in *. lia.
  - assert (0 <= (len samples + 3) / 4) by (apply Z.div_pos; lia).
    lia.
Qed.

(** The exits of [compress_signal]: it returns the null result exactly when
    the bound or the compression reports an error (and the encoder stayed
    inside its buffer), and on success the bytes it returns are those
    [ZSTD_compress] wrote; the size it stores in [*n] is that of
    [compression_size], never bound to the compressor's result. *)
Lemma compress_signal_exits compression_size samples count :
  let intermediate := svb16.encode (firstn (Z.to_nat count) samples) in
  let cap := compressed_signal_max_size count in
  let z := ZSTD_compress cap intermediate SLOW5_ZSTD_COMPRESS_LEVEL in
  (forall destination n,
      as_written.compress_signal compression_size samples count
      = Returns (Some (destination, n)) ->
      n = compression_size /\ destination = snd z /\
      ZSTD_isError cap = false /\ ZSTD_isError (fst z) = false) /\
  (as_written.compress_signal compression_size samples count = Returns None ->
   ZSTD_isError cap = true \/ ZSTD_isError (fst z) = true).
Proof.
  intros intermediate cap z. rewrite as_written_compress_cases. cbv zeta.
  fold intermediate. fold cap. fold z.
  destruct (_ <? _); [split; [discriminate | discriminate]|].
  destruct (ZSTD_isError cap), (ZSTD_isError (fst z)); cbn [orb]; split;
    try discriminate; auto.
  intros destination n H. inversion H; subst. auto.
Qed.

(** C2, as the code has it: whenever [compress_signal] returns bytes there
    are at most [compressed_signal_max_size n] of them; and for every [n]
    whose maximum encoded length [ceil (n / 4) + 2 * n] fits the 32 bits the
    code keeps it in, [compressed_signal_max_size n] is the compressor's bound
    at that length, the encoder stays inside its buffer, and compression
    returns bytes unless the bound itself is an error. *)
Theorem compress_signal_bound_in_32_bits (compression_size : Z) (samples : list Z) :
  compress_writes_its_size -> compress_succeeds_within_bound -> compressBound_monotone ->
  let n := len samples in
  (forall destination size,
      as_written.compress_signal compression_size samples n
      = Returns (Some (destination, size)) ->
      len destination <= compressed_signal_max_size n) /\
  (svb16_max_encoded_length n < 2 ^ 32 ->
   compressed_signal_max_size n = ZSTD_compressBound ((n + 3) / 4 + 2 * n) /\
   as_written.compress_signal compression_size samples n <> Undefined /\
   (ZSTD_isError (compressed_signal_max_size n) = false ->
    exists destination,
      as_written.compress_signal compression_size samples n
      = Returns (Some (destination, compression_size)) /\
      len destination <= ZSTD_compressBound ((n + 3) / 4 + 2 * n))).
Proof.
  intros Hfits Hsucc Hmono n.
  assert (Hn : 0 <= n) by (subst n; unfold len; lia).
  set (intermediate := svb16.encode (firstn (Z.to_nat n) samples)).
  pose proof (Hfits (compressed_signal_max_size n) intermediate SLOW5_ZSTD_COMPRESS_LEVEL)
    as Hz.
  assert (Hbytes : forall destination size,
             as_written.compress_signal compression_size samples n
             = Returns (Some (destination, size)) ->
             len destination <= compressed_signal_max_size n).
  { intros destination size H.
    destruct (proj1 (compress_signal_exits compression_size samples n) _ _ H)
      as [_ [Hd [_ He]]].
    fold intermediate in Hd, He.
    destruct (ZSTD_compress (compressed_signal_max_size n) intermediate
                SLOW5_ZSTD_COMPRESS_LEVEL) as [code dst].
    cbn [fst snd] in *. subst destination. destruct (Hz He) as [-> Hcap]. exact Hcap. }
  split; [exact Hbytes|].
  intros Hfit.
  assert (Hid : compressed_signal_max_size n = ZSTD_compressBound ((n + 3) / 4 + 2 * n)).
  { unfold compressed_signal_max_size. cbv zeta. rewrite to_uint32_small; [reflexivity|].
    split; [now apply max_encoded_length_nonneg | assumption]. }
  pose proof (encoder_stays_inside samples Hfit) as Hin. fold n in Hin.
  split; [exact Hid|]. split.
  - rewrite as_written_compress_cases. cbv zeta. rewrite Hin.
    destruct (_ || _); discriminate.
  - intros Hok.
    assert (Hle : ZSTD_compressBound (len intermediate) <= compressed_signal_max_size n).
    { rewrite Hid. apply Hmono. split; [unfold len; lia|].
      subst intermediate n. rewrite firstn_len. apply svb16_facts.encode_max_length. }
    pose proof (Hsucc (compressed_signal_max_size n) intermediate SLOW5_ZSTD_COMPRESS_LEVEL
                  (isError_below _ _ Hle Hok) Hle) as He.
    exists (snd (ZSTD_compress (compressed_signal_max_size n) intermediate
                   SLOW5_ZSTD_COMPRESS_LEVEL)).
    assert (R : as_written.compress_signal compression_size samples n
                = Returns (Some (snd (ZSTD_compress (compressed_signal_max_size n)
                                        intermediate SLOW5_ZSTD_COMPRESS_LEVEL),
                                 compression_size))).
    { rewrite as_written_compress_cases. cbv zeta. rewrite Hin. fold intermediate.
      rewrite Hok, He. reflexivity. }
    split; [exact R|]. rewrite <- Hid. exact (Hbytes _ _ R).
Qed.

(** C3, as the code has it: [decompress_signal] returns the null result when
    the frame's content size is unknown or unreadable and when decompression
    reports an error, the same null result for both; it never returns
    samples at these exits; and a frame the compressor produced, cut short by
    at least one byte, gives the null result whenever the compressor refuses
    truncated frames. *)
Theorem decompress_signal_null_exits (compressed_bytes : list Z) (count : Z) :
  truncated_frame_refused ->
  let src := firstn (Z.to_nat count) compressed_bytes in
  let size := ZSTD_getFrameContentSize src in
  (size = ZSTD_CONTENTSIZE_UNKNOWN \/ size = ZSTD_CONTENTSIZE_ERROR \/
   ZSTD_isError size = true ->
   as_written.decompress_signal compressed_bytes count = Returns None) /\
  (ZSTD_isError (fst (ZSTD_decompress size src)) = true ->
   as_written.decompress_signal compressed_bytes count = Returns None) /\
  (forall r, as_written.decompress_signal compressed_bytes count = Returns r ->
     r = None /\
     (ZSTD_isError size = true \/ ZSTD_isError (fst (ZSTD_decompress size src)) = true)) /\
  (forall dstCapacity content level (k : nat),
      compressed_bytes = snd (ZSTD_compress dstCapacity content level) ->
      ZSTD_isError (fst (ZSTD_compress dstCapacity content level)) = false ->
      (k < length compressed_bytes)%nat ->
      as_written.decompress_signal compressed_bytes (Z.of_nat k) = Returns None /\
      as_written.decompress_signal (firstn k compressed_bytes) (Z.of_nat k) = Returns None).
Proof.
  intros Htrunc src size.
  split; [|split; [|split]].
  - intros H. rewrite as_written_decompress_cases. cbv zeta. fold src. fold size.
    replace (ZSTD_isError size) with true; [reflexivity|].
    destruct H as [-> | [-> | H]]; [reflexivity | reflexivity | now symmetry].
  - intros H. rewrite as_written_decompress_cases. cbv zeta. fold src. fold size.
    rewrite H, orb_true_r. reflexivity.
  - intros r. rewrite as_written_decompress_cases. cbv zeta. fold src. fold size.
    destruct (ZSTD_isError size), (ZSTD_isError (fst (ZSTD_decompress size src)));
      cbn [orb]; try discriminate; intros H; inversion H; auto.
  - intros cap content level k -> Hok Hk.
    specialize (Htrunc cap content level k).
    destruct (ZSTD_compress cap content level) as [code frame]. cbn [fst snd] in *.
    specialize (Htrunc Hok Hk). cbv zeta in Htrunc.
    assert (E : forall b : list Z, firstn (Z.to_nat (Z.of_nat k)) b = firstn k b)
      by (intros; now rewrite Nat2Z.id).
    split; rewrite as_written_decompress_cases; cbv zeta; rewrite E.
    + destruct Htrunc as [-> | ->]; [reflexivity | now rewrite orb_true_r].
    + rewrite firstn_firstn, Nat.min_id.
      destruct Htrunc as [-> | ->]; [reflexivity | now rewrite orb_true_r].
Qed.

End SignalCompressionFacts.

(* ================================================================== *)
(** * The codec on the reference compressor *)

Module codec_examples.
Import stored stored_facts scenarios.

Lemma decode_0_2 (n : nat) :
  svb16.decode [0; 2] n
  = match n with
    | O => Some ([], O)
    | S O => Some ([1], 2%nat)
    | _ => None
    end.
Proof.
  do 9 (destruct n as [|n]; [reflexivity|]).
  unfold svb16.decode. cbv zeta.
  assert (H : (3 <= svb16.key_length (S (S (S (S (S (S (S (S (S n))))))))))%nat).
  { unfold svb16.key_length. apply Nat.div_le_lower_bound; lia. }
  destruct (Nat.ltb_spec (length [0; 2])
              (svb16.key_length (S (S (S (S (S (S (S (S (S n))))))))))) as [_|Hge].
  - reflexivity.
  - cbn [length] in Hge. lia.
Qed.

(** C1 on the code: [decompress_signal] has no parameter for the number of
    samples.  On the frame of the buffer [[1]] it returns the buffer only if
    the value its uninitialised [destination] happens to hold is [1], and the
    null result for every other value; handing it the number of samples as
    [count] (its only size parameter, the compressed size) gives the null
    result as well. *)
Theorem decompress_signal_lacks_sample_count :
  compress_signal [1] 1 = Some (frame_of_1, 14) /\
  (forall destination,
      decompress_signal destination frame_of_1 14
      = if destination =? 1 then Some [1] else None) /\
  (forall destination, decompress_signal destination frame_of_1 1 = None) /\
  decompress_signal 0 frame_of_1 14 = None.
Proof.
  split; [reflexivity|]. split; [|split; [|reflexivity]].
  - intros destination.
    change (decompress_signal destination frame_of_1 14)
      with (match svb16.decode [0; 2] (Z.to_nat destination) with
            | Some (samples, consumed_count) =>
                if negb (Z.of_nat consumed_count =? 2) then None else Some samples
            | None => None
            end).
    rewrite decode_0_2.
    destruct (Z.eqb_spec destination 1) as [->|Hne]; [reflexivity|].
    destruct (Z.to_nat destination) as [|[|m]] eqn:E; try reflexivity.
    exfalso. apply Hne. lia.
  - intros destination. reflexivity.
Qed.

Lemma compress_signal_bound_in_32_bits_witness :
  (compress_writes_its_size /\ compress_succeeds_within_bound /\ compressBound_monotone) /\
  compressed_signal_max_size 7 = ZSTD_compressBound ((7 + 3) / 4 + 2 * 7) /\
  as_written.compress_signal 0 scenario 7 <> Undefined.
Proof.
  split.
  - split; [exact stored_writes_its_size|].
    split; [exact stored_succeeds_within_bound | exact stored_compressBound_monotone].
  - assert (Hfit : svb16_max_encoded_length (len scenario) < 2 ^ 32) by reflexivity.
    destruct (proj2 (compress_signal_bound_in_32_bits 0 scenario stored_writes_its_size
                       stored_succeeds_within_bound stored_compressBound_monotone) Hfit)
      as [Hid [Hdef _]].
    split; [exact Hid | exact Hdef].
Defined.

Lemma decompress_signal_null_exits_witness :
  truncated_frame_refused /\
  as_written.decompress_signal frame_of_1 13 = Returns None.
Proof.
  split; [exact stored_truncated_frame_refused|].
  assert (Hk : (13 < length frame_of_1)%nat) by (cbn; lia).
  exact (proj1 (proj2 (proj2 (proj2
           (decompress_signal_null_exits frame_of_1 13 stored_truncated_frame_refused)))
           15 [0; 2] 1 13%nat eq_refl eq_refl Hk)).
Defined.

End codec_examples.

(* ================================================================== *)
(** * The codec on zstd frames of raw blocks *)

Module raw_frame_examples.
Import zstd_raw scenarios.

Example raw_frame_round_trip :
  ZSTD_compress 66 [0; 2] 1 = (11, raw_frame_of_1) /\
  ZSTD_getFrameContentSize raw_frame_of_1 = 2 /\
  ZSTD_decompress 2 raw_frame_of_1 = (2, [0; 2]) /\
  ZSTD_compressBound 3 = 66.
Proof. repeat split; reflexivity. Qed.

(** Cut short at any length, the frame is refused by one of the two zstd
    calls. *)
Example raw_frame_cut_short :
  forallb (fun k => match as_written.decompress_signal raw_frame_of_1 (Z.of_nat k) with
                    | Returns None => true
                    | _ => false
                    end) (seq 0 11) = true.
Proof. reflexivity. Qed.

(** C7 on the code: the size [compress_signal] stores in [*n] is whatever
    [compression_size] denotes, for every compressor and every buffer; for the
    buffer [[1]] it returns the eleven bytes of the frame together with that
    value, for instance with 0, and not with their number. *)
Theorem compress_signal_stores_compression_size :
  (forall (z : Zstd) (c : BuildConfig) compression_size samples count destination n,
      @as_written.compress_signal z c compression_size samples count
      = Returns (Some (destination, n)) ->
      n = compression_size) /\
  (forall compression_size,
      as_written.compress_signal compression_size [1] 1
      = Returns (Some (raw_frame_of_1, compression_size))) /\
  len raw_frame_of_1 = 11 /\
  as_written.compress_signal 0 [1] 1 = Returns (Some (raw_frame_of_1, 0)).
Proof.
  split; [|repeat split].
  intros z c compression_size samples count destination n H.
  exact (proj1 (proj1 (@compress_signal_exits z c compression_size samples count) _ _ H)).
Qed.

(** C2 as stated fails at 1908874354 samples: the maximum encoded length is
    [2 ^ 32 + 1], the code keeps 1 of it, and [compressed_signal_max_size]
    is the bound of a one-byte input, 64, not the bound at the maximum
    encoded length; and on the buffer of that many zero samples the encoder
    writes past its buffer, so that no output length is there to bound. *)
Lemma max_size_of_1908874354_samples :
  svb16_max_encoded_length 1908874354 = 2 ^ 32 + 1 /\
  compressed_signal_max_size 1908874354 = 64 /\
  ZSTD_compressBound ((1908874354 + 3) / 4 + 2 * 1908874354) = 4311744513 /\
  compressed_signal_max_size 1908874354
  <> ZSTD_compressBound ((1908874354 + 3) / 4 + 2 * 1908874354) /\
  as_written.compress_signal 0 (repeat 0 (Z.to_nat 1908874354))
    (len (repeat 0 (Z.to_nat 1908874354))) = Undefined.
Proof.
  split; [reflexivity|]. split; [reflexivity|]. split; [reflexivity|].
  split; [discriminate|].
  assert (L : len (repeat 0 (Z.to_nat 1908874354)) = 1908874354).
  { unfold len. rewrite repeat_length. apply Z2Nat.id. discriminate. }
  apply encoder_overruns_intermediate. rewrite L. discriminate.
Qed.

(** C3 as stated fails: an empty input, whose content size cannot be read,
    and a frame header that announces five bytes and has no block after it,
    whose decompression fails, are refused for different reasons, and
    [decompress_signal] answers both with the same null result, so no kind of
    error reaches the caller. *)
Lemma decompress_signal_exits_are_not_told_apart :
  ZSTD_isError (ZSTD_getFrameContentSize []) = true /\
  (ZSTD_getFrameContentSize header_only = 5 /\
   ZSTD_isError (fst (ZSTD_decompress 5 header_only)) = true) /\
  as_written.decompress_signal [] 0 = Returns None /\
  as_written.decompress_signal header_only 6 = Returns None /\
  as_written.decompress_signal [] 0 = as_written.decompress_signal header_only 6.
Proof. repeat split; reflexivity. Qed.

End raw_frame_examples.

(* ================================================================== *)
(** * The signal table schema *)

Module schema_facts.
Import arrow mkr.

(** ** Name lookup *)

Lemma indices_of_In nm fs : forall k i,
  In i (indices_of nm fs k) ->
  k <= i /\ exists f, nth_error fs (Z.to_nat (i - k)) = Some f /\ field_name f = nm.
Proof.
  induction fs as [|f rest IH]; intros k i H; cbn in H; [contradiction|].
  assert (Hrest : In i (indices_of nm rest (k + 1)) ->
                  k <= i /\ exists g, nth_error (f :: rest) (Z.to_nat (i - k)) = Some g
                                      /\ field_name g = nm).
  { intros Hi. destruct (IH _ _ Hi) as [Hle [g [Hg Hn]]]. split; [lia|].
    exists g. split; [|assumption].
    replace (Z.to_nat (i - k)) with (S (Z.to_nat (i - (k + 1)))) by lia. exact Hg. }
  destruct (String.eqb_spec (field_name f) nm) as [E|E]; [|auto].
  destruct H as [<- | H]; [|auto].
  split; [lia|]. exists f. rewrite Z.sub_diag. auto.
Qed.

Lemma indices_of_length nm fs : forall k,
  length (indices_of nm fs k) = count_occ string_dec (map field_name fs) nm.
Proof.
  induction fs as [|f rest IH]; intros k; cbn; [reflexivity|].
  destruct (String.eqb_spec (field_name f) nm) as [E|E];
    destruct (string_dec (field_name f) nm); try contradiction; cbn; now rewrite IH.
Qed.

(** A name that resolves does so to a field of that name, and [field_at]
    returns it. *)
Lemma GetFieldIndex_found s nm :
  GetFieldIndex s nm <> -1 ->
  0 <= GetFieldIndex s nm /\
  indices_of nm (fields s) 0 = [GetFieldIndex s nm] /\
  nth_error (fields s) (Z.to_nat (GetFieldIndex s nm))
  = Some (field_at s (GetFieldIndex s nm)) /\
  field_name (field_at s (GetFieldIndex s nm)) = nm.
Proof.
  unfold GetFieldIndex, field_at.
  destruct (indices_of nm (fields s) 0) as [|i [|j rest]] eqn:E; try congruence.
  intros _.
  destruct (indices_of_In nm (fields s) 0 i) as [Hle [f [Hf Hn]]].
  { rewrite E. now left. }
  rewrite Z.sub_0_r in Hf.
  repeat split; try assumption.
  - rewrite Hf. f_equal. symmetry. now apply nth_error_nth.
  - now rewrite (nth_error_nth _ _ _ Hf).
Qed.

Lemma GetFieldIndex_once s nm :
  count_occ string_dec (map field_name (fields s)) nm = 1%nat ->
  GetFieldIndex s nm <> -1.
Proof.
  intros H. rewrite <- (indices_of_length nm (fields s) 0) in H.
  unfold GetFieldIndex.
  destruct (indices_of nm (fields s) 0) as [|i [|j rest]] eqn:E; try discriminate.
  destruct (indices_of_In nm (fields s) 0 i) as [Hle _].
  { rewrite E. now left. }
  lia.
Qed.

Lemma field_unique nm fs : forall f g,
  count_occ string_dec (map field_name fs) nm = 1%nat ->
  In f fs -> In g fs -> field_name f = nm -> field_name g = nm -> f = g.
Proof.
  induction fs as [|h rest IH]; intros f g Hc Hf Hg Ef Eg; [contradiction|].
  cbn in Hc.
  assert (Hnone : forall x, count_occ string_dec (map field_name rest) nm = 0%nat ->
                            In x rest -> field_name x <> nm).
  { intros x H0 Hx Ex.
    apply (proj2 (count_occ_not_In string_dec _ _) H0).
    apply in_map_iff. exists x. auto. }
  destruct (string_dec (field_name h) nm) as [E|E].
  - assert (H0 : count_occ string_dec (map field_name rest) nm = 0%nat) by lia.
    destruct Hf as [<- | Hf], Hg as [<- | Hg]; try reflexivity;
      exfalso; eapply Hnone; eauto.
  - destruct Hf as [<- | Hf]; [contradiction|].
    destruct Hg as [<- | Hg]; [contradiction|].
    now apply IH.
Qed.

(** ** The validator's tests, by the shape of the type *)

Lemma read_id_tests t :
  accepts_read_id t
  = TypeId_eqb (id t) EXTENSION && String.eqb (extension_name t) "minknow.uuid".
Proof. destruct t; reflexivity. Qed.

Lemma signal_tests t :
  accepts_signal t
  = TypeId_eqb (id t) LARGE_LIST && TypeId_eqb (id (value_type t)) INT16.
Proof. destruct t as [| | | | | | | | | | | | | | | |v|v|n v]; try reflexivity.
  destruct v; reflexivity. Qed.

Lemma samples_tests t : accepts_samples t = TypeId_eqb (id t) UINT32.
Proof. destruct t; reflexivity. Qed.

Lemma accepts_read_id_shape t :
  accepts_read_id t = true <-> exists storage, t = extension "minknow.uuid" storage.
Proof.
  split.
  - destruct t; try discriminate. cbn. intros H. apply String.eqb_eq in H. subst. eauto.
  - intros [st ->]. reflexivity.
Qed.

Lemma accepts_signal_shape t : accepts_signal t = true <-> t = large_list int16.
Proof.
  split; [|intros ->; reflexivity].
  destruct t as [| | | | | | | | | | | | | | | |v|v|n v]; try discriminate.
  destruct v; try discriminate. reflexivity.
Qed.

Lemma accepts_samples_shape t : accepts_samples t = true <-> t = uint32.
Proof. split; [|intros ->; reflexivity]. destruct t; try discriminate. reflexivity. Qed.

Lemma incorrect_type_names_column column t :
  In column ["read_id"; "signal"; "samples"]%string ->
  names_column
    (message (Status_TypeError [("Schema field '" ++ column ++ "' is incorrect type: '")%string;
                                name t; "'"%string])) column = true.
Proof.
  intros [<- | [<- | [<- | []]]]; destruct t; reflexivity.
Qed.

Ltac test_column H :=
  match goal with
  | |- context [?i =? -1] =>
      destruct (Z.eqb_spec i (-1)) as [H|H]
  end.

Ltac settle column :=
  repeat match goal with |- _ /\ _ => split end;
  first [ assumption
        | reflexivity
        | apply (incorrect_type_names_column column); cbn; tauto
        | let H := fresh in intros [? H]; first [discriminate H | contradiction]
        | tauto ].

(** The validator decides the three columns in the order read_id, signal,
    samples: it accepts exactly when all three are in order, with the
    positions their names resolve to, and otherwise reports the first column
    that is not, by name, as a type error. *)
Lemma read_signal_table_schema_cases s :
  match read_signal_table_schema s with
  | Ok d =>
      column_ok s c_read_id /\ column_ok s c_signal /\ column_ok s c_samples /\
      d = resolved s
  | Err e =>
      code e = TypeError /\
      ((~ column_ok s c_read_id /\ names_column (message e) "read_id" = true) \/
       (column_ok s c_read_id /\ ~ column_ok s c_signal /\
        names_column (message e) "signal" = true) \/
       (column_ok s c_read_id /\ column_ok s c_signal /\ ~ column_ok s c_samples /\
        names_column (message e) "samples" = true))
  end.
Proof.
  unfold read_signal_table_schema, column_ok, column_type, c_read_id, c_signal, c_samples.
  cbn [fst snd]. cbv zeta.
  rewrite read_id_tests, signal_tests, samples_tests.
  test_column H1.
  { split; [reflexivity|]. left. settle "read_id"%string. }
  destruct (TypeId_eqb (id (type (field_at s (GetFieldIndex s "read_id")))) EXTENSION) eqn:T1;
    cbn [negb andb].
  2:{ split; [reflexivity|]. left. settle "read_id"%string. }
  destruct (String.eqb (extension_name (type (field_at s (GetFieldIndex s "read_id"))))
              "minknow.uuid") eqn:X1; cbn [negb].
  2:{ split; [reflexivity|]. left. settle "read_id"%string. }
  test_column H2.
  { split; [reflexivity|]. right; left. settle "signal"%string. }
  destruct (TypeId_eqb (id (type (field_at s (GetFieldIndex s "signal")))) LARGE_LIST) eqn:T2;
    cbn [negb andb].
  2:{ split; [reflexivity|]. right; left. settle "signal"%string. }
  destruct (TypeId_eqb (id (value_type (type (field_at s (GetFieldIndex s "signal"))))) INT16)
    eqn:V2; cbn [negb].
  2:{ split; [reflexivity|]. right; left. settle "signal"%string. }
  test_column H3.
  { split; [reflexivity|]. right; right. settle "samples"%string. }
  destruct (TypeId_eqb (id (type (field_at s (GetFieldIndex s "samples")))) UINT32) eqn:T3;
    cbn [negb].
  2:{ split; [reflexivity|]. right; right. settle "samples"%string. }
  repeat split; assumption.
Qed.

Lemma read_signal_table_schema_ok s d :
  read_signal_table_schema s = Ok d ->
  column_ok s c_read_id /\ column_ok s c_signal /\ column_ok s c_samples /\ d = resolved s.
Proof.
  intros H. pose proof (read_signal_table_schema_cases s) as C. now rewrite H in C.
Qed.

Lemma read_signal_table_schema_accepts s :
  column_ok s c_read_id -> column_ok s c_signal -> column_ok s c_samples ->
  read_signal_table_schema s = Ok (resolved s).
Proof.
  intros H1 H2 H3. pose proof (read_signal_table_schema_cases s) as C.
  destruct (read_signal_table_schema s) as [d|e].
  - destruct C as [_ [_ [_ ->]]]. reflexivity.
  - exfalso. tauto.
Qed.

Lemma read_signal_table_schema_rejects s c :
  In c required_columns -> ~ column_ok s c ->
  exists e, read_signal_table_schema s = Err e /\ code e = TypeError /\
    exists c', In c' required_columns /\ ~ column_ok s c' /\
               names_column (message e) (fst c') = true.
Proof.
  intros Hc Hbad. pose proof (read_signal_table_schema_cases s) as C.
  destruct (read_signal_table_schema s) as [d|e].
  - exfalso. destruct C as [H1 [H2 [H3 _]]].
    destruct Hc as [<- | [<- | [<- | []]]]; contradiction.
  - exists e. split; [reflexivity|]. destruct C as [Hcode C]. split; [assumption|].
    destruct C as [[H N] | [[_ [H N]] | [_ [_ [H N]]]]].
    + exists c_read_id. cbn; auto.
    + exists c_signal. cbn; auto.
    + exists c_samples. cbn; auto 6.
Qed.

(** The field a resolved column sits in. *)
Lemma resolved_field s nm acc :
  column_ok s (nm, acc) ->
  nth_error (fields s) (Z.to_nat (GetFieldIndex s nm))
  = Some (field nm (column_type s nm)) /\ acc (column_type s nm) = true.
Proof.
  intros [Hidx Hacc]. cbn [fst snd] in *.
  destruct (GetFieldIndex_found s nm Hidx) as [_ [_ [Hnth Hname]]].
  split; [|assumption]. rewrite Hnth. unfold column_type.
  destruct (field_at s (GetFieldIndex s nm)) as [n t]. cbn in *. now subst.
Qed.

(** A schema that holds the builder's three fields, whatever else it holds
    under other names and in whatever order, has its three columns in order. *)
Lemma permuted_column_ok md extras fs md' nm ty acc :
  (forall f, In f extras -> ~ In (field_name f) ["read_id"; "signal"; "samples"]%string) ->
  Permutation fs (fields (make_signal_table_schema md) ++ extras) ->
  In (field nm ty) (fields (make_signal_table_schema md)) ->
  acc ty = true ->
  column_ok (schema fs md') (nm, acc) /\ column_type (schema fs md') nm = ty.
Proof.
  intros Hextra Hperm Hin Hacc.
  assert (Hnm : In nm ["read_id"; "signal"; "samples"]%string).
  { cbn in Hin. destruct Hin as [E | [E | [E | []]]]; inversion E; cbn; auto. }
  assert (Hcount : count_occ string_dec (map field_name fs) nm = 1%nat).
  { rewrite (proj1 (Permutation_count_occ string_dec _ _) (Permutation_map field_name Hperm)).
    rewrite map_app, count_occ_app.
    replace (count_occ string_dec (map field_name extras) nm) with 0%nat.
    - destruct Hnm as [<- | [<- | [<- | []]]]; reflexivity.
    - symmetry. apply count_occ_not_In. intros H. apply in_map_iff in H.
      destruct H as [f [<- Hf]]. now apply (Hextra f). }
  pose proof (GetFieldIndex_once (schema fs md') nm Hcount) as Hidx.
  destruct (GetFieldIndex_found (schema fs md') nm Hidx) as [_ [_ [Hnth Hname]]].
  assert (E : field_at (schema fs md') (GetFieldIndex (schema fs md') nm) = field nm ty).
  { apply (field_unique nm fs); try assumption; try reflexivity.
    - apply nth_error_In in Hnth. exact Hnth.
    - apply (Permutation_in _ (Permutation_sym Hperm)). apply in_or_app. now left. }
  assert (T : column_type (schema fs md') nm = ty) by (unfold column_type; now rewrite E).
  split; [|assumption]. split; cbn [fst snd]; [assumption | now rewrite T].
Qed.

(** C6: validation fails with a type error whose message names a column that
    is missing or ill-typed whenever one of the three required columns is
    (the column itself when it is the only one); on success it returns the
    positions the three names resolve to, each the position of the field of
    that name; and a schema holding the three correct columns together with
    columns of other names, in any order, validates. *)
Theorem read_signal_table_schema_validation :
  (forall s c, In c required_columns -> ~ column_ok s c ->
     exists e, read_signal_table_schema s = Err e /\ code e = TypeError /\
       exists c', In c' required_columns /\ ~ column_ok s c' /\
                  names_column (message e) (fst c') = true) /\
  (forall s c, In c required_columns -> ~ column_ok s c ->
     (forall c', In c' required_columns -> c' <> c -> column_ok s c') ->
     exists e, read_signal_table_schema s = Err e /\ code e = TypeError /\
               names_column (message e) (fst c) = true) /\
  (forall s d, read_signal_table_schema s = Ok d ->
     d = resolved s /\
     nth_error (fields s) (Z.to_nat (read_id d)) = Some (field "read_id" (column_type s "read_id")) /\
     nth_error (fields s) (Z.to_nat (signal d)) = Some (field "signal" (column_type s "signal")) /\
     nth_error (fields s) (Z.to_nat (samples d)) = Some (field "samples" (column_type s "samples"))) /\
  (forall md extras fs md',
     (forall f, In f extras -> ~ In (field_name f) ["read_id"; "signal"; "samples"]%string) ->
     Permutation fs (fields (make_signal_table_schema md) ++ extras) ->
     read_signal_table_schema (schema fs md') = Ok (resolved (schema fs md')) /\
     nth_error fs (Z.to_nat (GetFieldIndex (schema fs md') "read_id"))
     = Some (field "read_id" uuid) /\
     nth_error fs (Z.to_nat (GetFieldIndex (schema fs md') "signal"))
     = Some (field "signal" (large_list int16)) /\
     nth_error fs (Z.to_nat (GetFieldIndex (schema fs md') "samples"))
     = Some (field "samples" uint32)).
Proof.
  split; [exact read_signal_table_schema_rejects|].
  split; [|split].
  - intros s c Hc Hbad Hothers.
    destruct (read_signal_table_schema_rejects s c Hc Hbad)
      as [e [He [Hcode [c' [Hc' [Hbad' Hn]]]]]].
    exists e. repeat split; try assumption.
    destruct Hc as [<- | [<- | [<- | []]]]; destruct Hc' as [<- | [<- | [<- | []]]];
      try assumption; exfalso; apply Hbad'; apply Hothers;
      solve [cbn; auto | discriminate].
  - intros s d H. apply read_signal_table_schema_ok in H.
    destruct H as [H1 [H2 [H3 ->]]]. split; [reflexivity|]. cbn [read_id signal samples resolved].
    repeat split.
    + apply (resolved_field s _ _ H1).
    + apply (resolved_field s _ _ H2).
    + apply (resolved_field s _ _ H3).
  - intros md extras fs md' Hextra Hperm.
    destruct (permuted_column_ok md extras fs md' "read_id" uuid accepts_read_id Hextra Hperm)
      as [H1 T1]; [cbn; auto | reflexivity |].
    destruct (permuted_column_ok md extras fs md' "signal" (large_list int16) accepts_signal
                Hextra Hperm) as [H2 T2]; [cbn; auto | reflexivity |].
    destruct (permuted_column_ok md extras fs md' "samples" uint32 accepts_samples
                Hextra Hperm) as [H3 T3]; [cbn; auto | reflexivity |].
    split; [now apply read_signal_table_schema_accepts|].
    rewrite <- T1 at 1. rewrite <- T2 at 1. rewrite <- T3 at 1.
    repeat split.
    + apply (resolved_field _ _ _ H1).
    + apply (resolved_field _ _ _ H2).
    + apply (resolved_field _ _ _ H3).
Qed.

(** C10: the validator accepts the read_id column only as an extension type
    named "minknow.uuid" and the signal column only as a large list of 16-bit
    signed integers; a read_id column of any other type (a bare 128-bit
    binary, an extension of another name) and a signal column of any other
    type (a plain list, a large list of another element type) are rejected
    with a type error naming the column. *)
Theorem read_signal_table_schema_exact_types :
  (forall s d, read_signal_table_schema s = Ok d ->
     (exists storage, column_type s "read_id" = extension "minknow.uuid" storage) /\
     column_type s "signal" = large_list int16) /\
  (forall s,
     (forall storage, column_type s "read_id" <> extension "minknow.uuid" storage) ->
     exists e, read_signal_table_schema s = Err e /\ code e = TypeError /\
               names_column (message e) "read_id" = true) /\
  (forall s,
     column_ok s c_read_id -> column_type s "signal" <> large_list int16 ->
     exists e, read_signal_table_schema s = Err e /\ code e = TypeError /\
               names_column (message e) "signal" = true) /\
  read_signal_table_schema
    (schema [field "read_id" (fixed_size_binary 16);
             field "signal" (large_list int16); field "samples" uint32] [])
  = Err (status TypeError "Schema field 'read_id' is incorrect type: 'fixed_size_binary'") /\
  read_signal_table_schema
    (schema [field "read_id" (extension "other.uuid" (fixed_size_binary 16));
             field "signal" (large_list int16); field "samples" uint32] [])
  = Err (status TypeError "Schema field 'read_id' is incorrect extension type") /\
  read_signal_table_schema
    (schema [field "read_id" uuid; field "signal" (list_ int16); field "samples" uint32] [])
  = Err (status TypeError "Schema field 'signal' is incorrect type: 'list'") /\
  read_signal_table_schema
    (schema [field "read_id" uuid; field "signal" (large_list int32); field "samples" uint32] [])
  = Err (status TypeError "Schema field 'signal' list value type is incorrect type").
Proof.
  split; [|split; [|split; [|repeat split; reflexivity]]].
  - intros s d H. apply read_signal_table_schema_ok in H.
    destruct H as [[_ H1] [[_ H2] _]]. cbn [fst snd c_read_id c_signal] in *.
    split; [now apply accepts_read_id_shape | now apply accepts_signal_shape].
  - intros s Hty.
    assert (Hbad : ~ column_ok s c_read_id).
    { intros [_ H]. apply accepts_read_id_shape in H. destruct H as [st H].
      now apply (Hty st). }
    pose proof (read_signal_table_schema_cases s) as C.
    destruct (read_signal_table_schema s) as [d|e]; [tauto|].
    exists e. split; [reflexivity|]. tauto.
  - intros s H1 Hty.
    assert (Hbad : ~ column_ok s c_signal).
    { intros [_ H]. now apply accepts_signal_shape in H. }
    pose proof (read_signal_table_schema_cases s) as C.
    destruct (read_signal_table_schema s) as [d|e]; [tauto|].
    exists e. split; [reflexivity|]. tauto.
Qed.

(** C4 as stated fails: the builder emits the names read_id, signal and
    samples, not payload and sample_count, and the validator turns down a
    schema that uses the latter; it also takes a read_id column whose
    extension type is not 128 bits wide, as it reads the extension's name
    only. *)
Lemma payload_and_sample_count_are_not_column_names :
  map field_name (fields (make_signal_table_schema []))
  = ["read_id"; "signal"; "samples"]%string /\
  map field_name (fields (make_signal_table_schema []))
  <> ["read_id"; "payload"; "sample_count"]%string /\
  read_signal_table_schema
    (schema [field "read_id" uuid; field "payload" (large_list int16);
             field "sample_count" uint32] [])
  = Err (status TypeError "Schema missing field 'signal'") /\
  read_signal_table_schema
    (schema [field "read_id" (extension "minknow.uuid" int8);
             field "signal" (large_list int16); field "samples" uint32] [])
  = Ok {| read_id := 0; signal := 1; samples := 2 |}.
Proof. repeat split; try reflexivity. discriminate. Qed.

(** C4, as the code has it: the builder emits, in this order, read_id as the
    extension type "minknow.uuid" over a 16-byte binary, signal as a large
    list of 16-bit signed integers and samples as an unsigned 32-bit integer,
    with the caller's metadata; the validator accepts that schema, and every
    schema it accepts has one field of each of these three names, read_id of
    an extension type named "minknow.uuid", signal a large list of int16 and
    samples a uint32, at the positions it returns. *)
Theorem signal_table_wire_contract :
  (forall md,
     make_signal_table_schema md
     = schema [field "read_id" (extension "minknow.uuid" (fixed_size_binary 16));
               field "signal" (large_list int16);
               field "samples" uint32] md) /\
  (forall md,
     read_signal_table_schema (make_signal_table_schema md)
     = Ok {| read_id := 0; signal := 1; samples := 2 |}) /\
  (forall s d, read_signal_table_schema s = Ok d ->
     exists storage,
       nth_error (fields s) (Z.to_nat (read_id d))
       = Some (field "read_id" (extension "minknow.uuid" storage)) /\
       nth_error (fields s) (Z.to_nat (signal d))
       = Some (field "signal" (large_list int16)) /\
       nth_error (fields s) (Z.to_nat (samples d))
       = Some (field "samples" uint32)).
Proof.
  split; [reflexivity|]. split; [reflexivity|].
  intros s d H. apply read_signal_table_schema_ok in H.
  destruct H as [H1 [H2 [H3 ->]]]. cbn [read_id signal samples resolved].
  destruct (resolved_field s _ _ H1) as [N1 A1].
  destruct (resolved_field s _ _ H2) as [N2 A2].
  destruct (resolved_field s _ _ H3) as [N3 A3].
  apply accepts_read_id_shape in A1. destruct A1 as [storage A1].
  apply accepts_signal_shape in A2. apply accepts_samples_shape in A3.
  exists storage. rewrite N1, N2, N3, A1, A2, A3. auto.
Qed.

End schema_facts.

(* ================================================================== *)
(** * The signal table writer *)

Module writer_facts.
Import SignalTableWriter.

Ltac split_and := repeat match goal with |- _ /\ _ => split end.

Section WriterFacts.
Context {zstd : Zstd} {config : BuildConfig}.

Lemma fresh_writer_consistent md : consistent (make_signal_table_writer empty_sink md).
Proof. constructor; reflexivity. Qed.

(** ** Single operations *)

Lemma add_read_closed read_id samples w :
  m_state w = Closed -> add_read read_id samples w = (Failure WriterClosed, w).
Proof. intros H. unfold add_read, is_closed. now rewrite H. Qed.

Lemma flush_closed a w : m_state w = Closed -> flush a w = (Failure WriterClosed, w).
Proof. intros H. unfold flush, is_closed. now rewrite H. Qed.

Lemma close_closed a w : m_state w = Closed -> close a w = (Success tt, w).
Proof. intros H. unfold close, is_closed. now rewrite H. Qed.

Lemma add_read_failure read_id samples w e w' :
  add_read read_id samples w = (Failure e, w') -> w' = w.
Proof.
  unfold add_read. destruct (is_closed w); [now inversion 1|].
  destruct (compress_signal samples (len samples)) as [[payload n]|]; now inversion 1.
Qed.

Lemma add_read_success read_id samples w i w' :
  add_read read_id samples w = (Success i, w') ->
  exists payload n,
    compress_signal samples (len samples) = Some (payload, n) /\
    m_state w = Open /\ m_state w' = Open /\
    i = total_rows w /\
    i = m_flushed_row_count w' + m_current_batch_row_count w' - 1 /\
    m_writer w' = m_writer w /\
    m_flushed_row_count w' = m_flushed_row_count w /\
    m_current_batch_row_count w' = m_current_batch_row_count w + 1 /\
    m_read_id_builder w' = m_read_id_builder w ++ [read_id] /\
    m_signal_builder w' = m_signal_builder w ++ [payload] /\
    m_samples_builder w' = m_samples_builder w ++ [len samples].
Proof.
  unfold add_read, is_closed, total_rows.
  destruct (m_state w) eqn:St; [|discriminate].
  destruct (compress_signal samples (len samples)) as [[payload n]|]; [|discriminate].
  intros H. inversion H; subst; clear H. cbn.
  exists payload, n. split_and; first [reflexivity | lia].
Qed.

Lemma flush_failure a w e w' : flush a w = (Failure e, w') -> w' = w.
Proof.
  unfold flush. destruct (is_closed w); [now inversion 1|].
  destruct (m_current_batch_row_count w =? 0); [discriminate|].
  destruct a; [discriminate | now inversion 1].
Qed.

Lemma flush_success a w w' :
  flush a w = (Success tt, w') ->
  m_state w = Open /\
  ((m_current_batch_row_count w = 0 /\ w' = w) \/
   (m_current_batch_row_count w <> 0 /\ a = true /\
    batches (m_writer w') = batches (m_writer w) ++ [current_batch w] /\
    ended (m_writer w') = ended (m_writer w) /\
    m_read_id_builder w' = [] /\ m_signal_builder w' = [] /\ m_samples_builder w' = [] /\
    m_flushed_row_count w' = total_rows w /\
    m_current_batch_row_count w' = 0 /\
    m_state w' = Open)).
Proof.
  unfold flush, is_closed, total_rows.
  destruct (m_state w) eqn:St; [|discriminate]. intros H. split; [reflexivity|].
  destruct (Z.eqb_spec (m_current_batch_row_count w) 0) as [E|E].
  - inversion H; subst. now left.
  - destruct a; [|discriminate]. inversion H; subst; clear H. cbn.
    right. split_and; first [assumption | reflexivity].
Qed.

Lemma length_zero_nil {A} (l : list A) : length l = 0%nat -> l = [].
Proof. destruct l; [reflexivity | discriminate]. Qed.

(** After a successful flush nothing is buffered. *)
Lemma flush_success_drains a w w' :
  consistent w -> flush a w = (Success tt, w') ->
  m_read_id_builder w' = [] /\ m_signal_builder w' = [] /\ m_samples_builder w' = [] /\
  m_current_batch_row_count w' = 0.
Proof.
  intros C H. apply flush_success in H.
  destruct H as [_ [[H0 ->] | H]]; [|tauto].
  destruct C as [Hc Hs Hm _ _ _].
  assert (L : length (m_read_id_builder w) = 0%nat) by lia.
  rewrite L in Hs, Hm. auto using length_zero_nil.
Qed.

(** ** What one call does to the table *)

Lemma grows_refl w : grows w w [] [] [].
Proof. unfold grows. now rewrite !app_nil_r. Qed.

Lemma grows_trans w1 w2 w3 i1 s1 c1 i2 s2 c2 :
  grows w1 w2 i1 s1 c1 -> grows w2 w3 i2 s2 c2 ->
  grows w1 w3 (i1 ++ i2) (s1 ++ s2) (c1 ++ c2).
Proof.
  unfold grows. intros [A1 [A2 A3]] [B1 [B2 B3]].
  rewrite B1, B2, B3, A1, A2, A3, !app_assoc. auto.
Qed.

Lemma total_rows_table w : consistent w -> total_rows w = Z.of_nat (length (all_read_ids w)).
Proof.
  intros [Hc _ _ Hf _ _]. unfold total_rows, all_read_ids.
  rewrite length_app. lia.
Qed.

Lemma table_columns_length w :
  consistent w ->
  length (all_signals w) = length (all_read_ids w) /\
  length (all_samples w) = length (all_read_ids w).
Proof.
  intros [_ Hs Hm _ Fs Fm]. unfold all_signals, all_samples, all_read_ids.
  rewrite !length_app. lia.
Qed.

Lemma add_read_step read_id samples w i w' :
  consistent w -> add_read read_id samples w = (Success i, w') ->
  consistent w' /\ i = total_rows w /\ total_rows w' = total_rows w + 1 /\
  exists payload n,
    compress_signal samples (len samples) = Some (payload, n) /\
    grows w w' [read_id] [payload] [len samples].
Proof.
  intros C H. apply add_read_success in H.
  destruct H as [payload [n [Hc [_ [_ [Hi [_ [Hw [Hf [Hn [B1 [B2 B3]]]]]]]]]]]].
  destruct C as [Hcur Hs Hm Hfl Fs Fm].
  split; [|split; [assumption | split]].
  - constructor; rewrite ?Hw, ?Hf, ?Hn, ?B1, ?B2, ?B3, ?length_app; cbn [length];
      try assumption; lia.
  - unfold total_rows. lia.
  - exists payload, n. split; [assumption|].
    unfold grows, all_read_ids, all_signals, all_samples.
    rewrite Hw, B1, B2, B3, !app_assoc. auto.
Qed.

Lemma flush_step a w w' :
  consistent w -> flush a w = (Success tt, w') ->
  consistent w' /\ total_rows w' = total_rows w /\ grows w w' [] [] [].
Proof.
  intros C H. apply flush_success in H.
  destruct H as [_ [[_ ->] | [_ [_ [Hb [_ [B1 [B2 [B3 [Hf [Hn _]]]]]]]]]]].
  { split; [assumption|]. split; [reflexivity | apply grows_refl]. }
  destruct C as [Hcur Hs Hm Hfl Fs Fm].
  assert (R : flat_map read_id_column (batches (m_writer w'))
              = flat_map read_id_column (batches (m_writer w)) ++ m_read_id_builder w)
    by (rewrite Hb, flat_map_app; cbn; now rewrite app_nil_r).
  assert (S' : flat_map signal_column (batches (m_writer w'))
              = flat_map signal_column (batches (m_writer w)) ++ m_signal_builder w)
    by (rewrite Hb, flat_map_app; cbn; now rewrite app_nil_r).
  assert (M : flat_map samples_column (batches (m_writer w'))
              = flat_map samples_column (batches (m_writer w)) ++ m_samples_builder w)
    by (rewrite Hb, flat_map_app; cbn; now rewrite app_nil_r).
  unfold total_rows in Hf.
  split; [|split].
  - constructor; rewrite ?R, ?S', ?M, ?B1, ?B2, ?B3, ?Hf, ?Hn, ?length_app; cbn [length];
      lia.
  - unfold total_rows. lia.
  - unfold grows, all_read_ids, all_signals, all_samples.
    rewrite R, S', M, B1, B2, B3, !app_nil_r. auto.
Qed.

Lemma close_step a w w' :
  consistent w -> close a w = (Success tt, w') ->
  consistent w' /\ total_rows w' = total_rows w /\ grows w w' [] [] [] /\
  (m_state w = Open -> m_state w' = Closed /\ ended (m_writer w') = true).
Proof.
  intros C. unfold close, is_closed.
  destruct (m_state w) eqn:St.
  2:{ intros H. inversion H; subst. split; [assumption|]. split; [reflexivity|].
      split; [apply grows_refl | congruence]. }
  destruct (flush a w) as [[[]|e] w1] eqn:F; [|discriminate].
  intros H. inversion H; subst; clear H.
  destruct (flush_success_drains a w w1 C F) as [B1 [B2 [B3 Hn]]].
  destruct (flush_step a w w1 C F) as [C1 [T1 G1]].
  destruct C1 as [Hcur Hs Hm Hfl Fs Fm].
  split; [|split; [|split]].
  - constructor; cbn; rewrite ?Hn; try assumption; reflexivity.
  - rewrite <- T1. reflexivity.
  - destruct G1 as [G1 [G2 G3]].
    unfold grows, all_read_ids, all_signals, all_samples in *. cbn.
    rewrite B1 in G1. rewrite B2 in G2. rewrite B3 in G3. auto.
  - intros _. cbn. auto.
Qed.

Lemma close_failure a w e w' : close a w = (Failure e, w') -> w' = w.
Proof.
  unfold close. destruct (is_closed w); [discriminate|].
  destruct (flush a w) as [[[]|e1] w1] eqn:F; [discriminate|].
  intros H. inversion H; subst. now apply flush_failure in F.
Qed.

(** ** Sequences of calls *)

(** Whatever the calls and the sink's answers: the writer stays consistent,
    the indices it returns count up from its row count, and its table grows
    by one row per index returned and is otherwise untouched. *)
Lemma run_invariant calls : forall w replies w',
  consistent w -> run calls w = (replies, w') ->
  consistent w' /\
  returned_indices replies
  = map (fun k => total_rows w + Z.of_nat k) (seq 0 (length (returned_indices replies))) /\
  total_rows w' = total_rows w + Z.of_nat (length (returned_indices replies)) /\
  exists ids sigs cnts, grows w w' ids sigs cnts /\
    length ids = length (returned_indices replies).
Proof.
  induction calls as [|c rest IH]; intros w replies w' C H; cbn [run] in H.
  - inversion H; subst. cbn. split_and; try assumption; try reflexivity; try lia.
    exists [], [], []. split; [apply grows_refl | reflexivity].
  - destruct (step c w) as [r w1] eqn:S1. destruct (run rest w1) as [rs w2] eqn:R.
    inversion H; subst; clear H.
    assert (Hstep : consistent w1 /\
              match r with
              | row_index i =>
                  i = total_rows w /\ total_rows w1 = total_rows w + 1 /\
                  exists id sig cnt, grows w w1 [id] [sig] [cnt]
              | _ => total_rows w1 = total_rows w /\ grows w w1 [] [] []
              end).
    { destruct c as [id samples|a|a]; cbn [step] in S1.
      - destruct (add_read id samples w) as [[i|e] wa] eqn:A; inversion S1; subst.
        + destruct (add_read_step id samples w i w1 C A) as [C1 [Hi [Ht [p [n [_ G]]]]]].
          split; [assumption|]. split_and; try assumption. eauto.
        + apply add_read_failure in A. subst.
          split; [assumption|]. split; [reflexivity | apply grows_refl].
      - destruct (flush a w) as [[[]|e] wa] eqn:F; inversion S1; subst.
        + destruct (flush_step a w w1 C F) as [C1 [Ht G]]. auto.
        + apply flush_failure in F. subst.
          split; [assumption|]. split; [reflexivity | apply grows_refl].
      - destruct (close a w) as [[[]|e] wa] eqn:F; inversion S1; subst.
        + destruct (close_step a w w1 C F) as [C1 [Ht [G _]]]. auto.
        + apply close_failure in F. subst.
          split; [assumption|]. split; [reflexivity | apply grows_refl]. }
    destruct Hstep as [C1 Hr].
    destruct (IH w1 rs w' C1 R) as [C2 [Hidx [Ht [ids [sigs [cnts [G L]]]]]]].
    split; [assumption|].
    destruct r as [i| |e].
    + destruct Hr as [Hi [Ht1 [id [sig [cnt G1]]]]].
      cbn [returned_indices length seq map]. rewrite Nat2Z.inj_succ.
      split; [|split].
      * rewrite Z.add_0_r, <- Hi. f_equal.
        rewrite Hidx at 1. rewrite <- seq_shift, map_map.
        apply map_ext. intros k. lia.
      * lia.
      * exists ([id] ++ ids), ([sig] ++ sigs), ([cnt] ++ cnts).
        split; [eapply grows_trans; eassumption|]. cbn. now rewrite L.
    + destruct Hr as [Ht1 G1]. cbn [returned_indices]. rewrite <- Ht1.
      split_and; try assumption.
      exists ids, sigs, cnts. split; [|assumption].
      apply (grows_trans w w1 w' [] [] [] ids sigs cnts); assumption.
    + destruct Hr as [Ht1 G1]. cbn [returned_indices]. rewrite <- Ht1.
      split_and; try assumption.
      exists ids, sigs, cnts. split; [|assumption].
      apply (grows_trans w w1 w' [] [] [] ids sigs cnts); assumption.
Qed.

Lemma nth_error_grows {A} (l : list A) (x : A) (rest : list A) :
  nth_error ((l ++ [x]) ++ rest) (length l) = Some x.
Proof.
  rewrite <- app_assoc. rewrite nth_error_app2 by lia.
  now rewrite Nat.sub_diag.
Qed.

(** C5: on a writer made by [make_signal_table_writer] and driven by any
    calls (reads added, flushes and closes, the sink accepting or refusing as
    it likes), the indices returned so far are 0, 1, 2, ... in call order, the
    next successful [add_read] returns the next number, which is
    [m_flushed_row_count + m_current_batch_row_count - 1] just after the call,
    and whatever calls follow, the row of that read stays at that index of
    the table (the accepted batches in order, then the buffered rows). *)
Theorem add_read_row_index
    (md : arrow.KeyValueMetadata) (before : list Call) (replies : list Reply)
    (w : Writer) (read_id : uuid) (samples : list Z) (i : Z) (w' : Writer) :
  run before (make_signal_table_writer empty_sink md) = (replies, w) ->
  add_read read_id samples w = (Success i, w') ->
  returned_indices replies = map Z.of_nat (seq 0 (length (returned_indices replies))) /\
  i = Z.of_nat (length (returned_indices replies)) /\
  i = m_flushed_row_count w' + m_current_batch_row_count w' - 1 /\
  forall later,
    let w'' := snd (run later w') in
    nth_error (all_read_ids w'') (Z.to_nat i) = Some read_id /\
    nth_error (all_samples w'') (Z.to_nat i) = Some (len samples) /\
    exists payload n,
      compress_signal samples (len samples) = Some (payload, n) /\
      nth_error (all_signals w'') (Z.to_nat i) = Some payload.
Proof.
  intros Hrun Hadd.
  destruct (run_invariant before _ _ _ (fresh_writer_consistent md) Hrun)
    as [C [Hidx [Ht _]]].
  change (total_rows (make_signal_table_writer empty_sink md)) with 0 in Hidx, Ht.
  destruct (add_read_step read_id samples w i w' C Hadd)
    as [C' [Hi [_ [payload [n [Hc [G1 [G2 G3]]]]]]]].
  split; [|split; [|split]].
  - rewrite Hidx at 1. apply map_ext. intros k. lia.
  - lia.
  - apply add_read_success in Hadd. destruct Hadd as [? [? H]]. tauto.
  - intros later w''.
    destruct (run later w') as [rs wl] eqn:R. subst w''. cbn [snd].
    destruct (run_invariant later _ _ _ C' R) as [_ [_ [_ [ids [sigs [cnts [[E1 [E2 E3]] _]]]]]]].
    destruct (table_columns_length w C) as [L2 L3].
    assert (Hpos : Z.to_nat i = length (all_read_ids w))
      by (rewrite Hi, (total_rows_table w C); lia).
    rewrite E1, E2, E3, G1, G2, G3, Hpos.
    split; [apply nth_error_grows|].
    split.
    + rewrite <- L3. apply nth_error_grows.
    + exists payload, n. split; [assumption|].
      rewrite <- L2. apply nth_error_grows.
Qed.

Lemma closed_writer_stays calls : forall w,
  m_state w = Closed ->
  snd (run calls w) = w /\
  Forall (fun r => r = failed WriterClosed \/ r = done) (fst (run calls w)).
Proof.
  induction calls as [|c rest IH]; intros w H; cbn [run].
  - split; [reflexivity | constructor].
  - assert (S1 : step c w = (failed WriterClosed, w) \/ step c w = (done, w)).
    { destruct c as [id samples|a|a]; cbn [step].
      - rewrite add_read_closed by assumption. now left.
      - rewrite flush_closed by assumption. now left.
      - rewrite close_closed by assumption. now right. }
    destruct (IH w H) as [Hw Hr].
    destruct S1 as [-> | ->]; destruct (run rest w) as [rs w2]; cbn [fst snd] in *;
      (split; [assumption | constructor; auto]).
Qed.

(** C8: once [close] has succeeded the writer is closed; every later
    [add_read] and every later [flush] fails with the writer-closed error and
    returns the writer as it was; and no sequence of calls changes the
    writer again. *)
Theorem closed_writer_rejects (a : bool) (w0 w : Writer) :
  close a w0 = (Success tt, w) ->
  m_state w = Closed /\
  (forall read_id samples, add_read read_id samples w = (Failure WriterClosed, w)) /\
  (forall a', flush a' w = (Failure WriterClosed, w)) /\
  (forall calls,
      snd (run calls w) = w /\
      Forall (fun r => r = failed WriterClosed \/ r = done) (fst (run calls w))).
Proof.
  intros H.
  assert (Hc : m_state w = Closed).
  { unfold close, is_closed in H. destruct (m_state w0) eqn:St.
    - destruct (flush a w0) as [[[]|e] w1]; [|discriminate].
      inversion H; subst. reflexivity.
    - inversion H; subst. assumption. }
  split; [assumption|]. split; [|split].
  - intros. now apply add_read_closed.
  - intros. now apply flush_closed.
  - intros. now apply closed_writer_stays.
Qed.

(** C9: a flush that fails because the sink refuses the batch returns the
    writer unchanged, so that the same flush with a sink that accepts hands
    over exactly the rows that were buffered, as one batch after the batches
    already accepted; every failing flush leaves the writer unchanged; and a
    flush with no buffered row changes nothing (and succeeds on an open
    writer). *)
Theorem flush_keeps_rows_on_sink_failure (w : Writer) :
  (forall w', flush false w = (Failure SinkError, w') ->
     w' = w /\
     exists w'',
       flush true w = (Success tt, w'') /\
       batches (m_writer w'') = batches (m_writer w) ++ [current_batch w] /\
       read_id_column (current_batch w) = m_read_id_builder w /\
       signal_column (current_batch w) = m_signal_builder w /\
       samples_column (current_batch w) = m_samples_builder w /\
       m_flushed_row_count w''
       = m_flushed_row_count w + m_current_batch_row_count w /\
       m_current_batch_row_count w'' = 0) /\
  (forall a e w', flush a w = (Failure e, w') -> w' = w) /\
  (m_current_batch_row_count w = 0 ->
   forall a, snd (flush a w) = w /\ (m_state w = Open -> fst (flush a w) = Success tt)).
Proof.
  split; [|split].
  - intros w' H. split; [now apply flush_failure in H|].
    unfold flush in *. destruct (is_closed w); [discriminate|].
    destruct (m_current_batch_row_count w =? 0); [discriminate|].
    eexists. split; [reflexivity|]. cbn. auto 8.
  - intros a e w'. apply flush_failure.
  - intros H0 a. unfold flush, is_closed. rewrite H0. cbn.
    destruct (m_state w); split; try reflexivity. discriminate.
Qed.

End WriterFacts.
End writer_facts.

(* ================================================================== *)
(** * The writer on the reference compressor *)

Module writer_examples.
Import SignalTableWriter writer_facts stored scenarios.

Example session_replies :
  fst after_session = [row_index 0; done; row_index 1; failed SinkError] /\
  fst third_read = Success 2.
Proof. split; reflexivity. Qed.

Lemma add_read_row_index_witness :
  (run session (make_signal_table_writer empty_sink []) = after_session /\
   add_read id_c scenario (snd after_session) = third_read) /\
  nth_error (all_read_ids (snd (run [call_close true] (snd third_read)))) 2 = Some id_c.
Proof.
  split; [split; vm_compute; reflexivity|].
  assert (Hrun : run session (make_signal_table_writer empty_sink [])
                 = (fst after_session, snd after_session)) by (vm_compute; reflexivity).
  assert (Hadd : add_read id_c scenario (snd after_session)
                 = (Success 2, snd third_read)) by (vm_compute; reflexivity).
  exact (proj1 (proj2 (proj2 (proj2
           (add_read_row_index [] session _ _ id_c scenario 2 _ Hrun Hadd)))
           [call_close true])).
Defined.

Lemma closed_writer_rejects_witness :
  close true (snd third_read)
  = (Success tt, snd (close true (snd third_read))) /\
  add_read id_a [1] (snd (close true (snd third_read)))
  = (Failure WriterClosed, snd (close true (snd third_read))).
Proof.
  assert (H : close true (snd third_read)
              = (Success tt, snd (close true (snd third_read))))
    by (vm_compute; reflexivity).
  split; [exact H|].
  exact (proj1 (proj2 (closed_writer_rejects true _ _ H)) id_a [1]).
Defined.

(** The refused flush of the session left both buffered rows in place; the
    retry hands them over. *)
Example flush_retry :
  flush false (snd third_read) = (Failure SinkError, snd third_read) /\
  map read_id_column (batches (m_writer (snd (flush true (snd third_read)))))
  = [[id_a]; [id_b; id_c]].
Proof. split; vm_compute; reflexivity. Qed.

End writer_examples.

(* ================================================================== *)
(** * More on the validator: positions, column order, ambiguous names *)

Module schema_more.
Import arrow mkr schema_facts.

Definition required_names : list string := ["read_id"; "signal"; "samples"]%string.

Lemma GetFieldIndex_count s nm :
  GetFieldIndex s nm <> -1 <->
  count_occ string_dec (map field_name (fields s)) nm = 1%nat.
Proof.
  split; [|apply GetFieldIndex_once].
  intros H. destruct (GetFieldIndex_found s nm H) as [_ [E _]].
  rewrite <- (indices_of_length nm (fields s) 0), E. reflexivity.
Qed.

Lemma resolved_in_range s nm :
  GetFieldIndex s nm <> -1 ->
  0 <= GetFieldIndex s nm < Z.of_nat (length (fields s)).
Proof.
  intros H. destruct (GetFieldIndex_found s nm H) as [H0 [_ [Hn _]]].
  assert (Hlt : (Z.to_nat (GetFieldIndex s nm) < length (fields s))%nat)
    by (apply nth_error_Some; rewrite Hn; discriminate).
  lia.
Qed.

Lemma resolved_apart s nm1 nm2 :
  nm1 <> nm2 -> GetFieldIndex s nm1 <> -1 -> GetFieldIndex s nm2 <> -1 ->
  GetFieldIndex s nm1 <> GetFieldIndex s nm2.
Proof.
  intros Hne H1 H2 E.
  destruct (GetFieldIndex_found s nm1 H1) as [_ [_ [_ N1]]].
  destruct (GetFieldIndex_found s nm2 H2) as [_ [_ [_ N2]]].
  rewrite E in N1. congruence.
Qed.

(** X1: the three positions an accepted schema resolves to lie inside the
    schema's field list and are pairwise different, so an accepted schema has
    at least three fields. *)
Theorem resolved_positions_distinct (s : Schema) (d : SignalTableSchemaDescription) :
  read_signal_table_schema s = Ok d ->
  let n := Z.of_nat (length (fields s)) in
  (0 <= read_id d < n /\ 0 <= signal d < n /\ 0 <= samples d < n) /\
  (read_id d <> signal d /\ signal d <> samples d /\ read_id d <> samples d) /\
  3 <= n.
Proof.
  intros H n. apply read_signal_table_schema_ok in H.
  destruct H as [[H1 _] [[H2 _] [[H3 _] ->]]]. cbn [fst c_read_id c_signal c_samples] in *.
  cbn [read_id signal samples resolved].
  pose proof (resolved_in_range s _ H1) as R1.
  pose proof (resolved_in_range s _ H2) as R2.
  pose proof (resolved_in_range s _ H3) as R3.
  assert (D12 : GetFieldIndex s "read_id" <> GetFieldIndex s "signal")
    by (apply resolved_apart; [discriminate | assumption | assumption]).
  assert (D23 : GetFieldIndex s "signal" <> GetFieldIndex s "samples")
    by (apply resolved_apart; [discriminate | assumption | assumption]).
  assert (D13 : GetFieldIndex s "read_id" <> GetFieldIndex s "samples")
    by (apply resolved_apart; [discriminate | assumption | assumption]).
  subst n. repeat split; try assumption; try lia.
Qed.

(** ** The verdict depends on the three named columns only *)

(** Two schemas in which each required name resolves alike, and to a field of
    the same type, get the same verdict. *)
Lemma verdict_by_columns s s' :
  (forall nm, In nm required_names ->
     (GetFieldIndex s' nm =? -1) = (GetFieldIndex s nm =? -1) /\
     (GetFieldIndex s nm <> -1 -> column_type s' nm = column_type s nm)) ->
  verdict (read_signal_table_schema s') = verdict (read_signal_table_schema s).
Proof.
  intros H.
  destruct (H "read_id"%string) as [E1 T1]; [cbn; auto|].
  destruct (H "signal"%string) as [E2 T2]; [cbn; auto|].
  destruct (H "samples"%string) as [E3 T3]; [cbn; auto|].
  unfold read_signal_table_schema. cbv zeta.
  fold (column_type s "read_id") (column_type s "signal") (column_type s "samples").
  fold (column_type s' "read_id") (column_type s' "signal") (column_type s' "samples").
  rewrite E1, E2, E3.
  destruct (Z.eqb_spec (GetFieldIndex s "read_id") (-1)) as [|N1]; [reflexivity|].
  rewrite (T1 N1).
  destruct (negb (TypeId_eqb (id (column_type s "read_id")) EXTENSION)); [reflexivity|].
  destruct (negb (extension_name (column_type s "read_id") =? "minknow.uuid")%string);
    [reflexivity|].
  destruct (Z.eqb_spec (GetFieldIndex s "signal") (-1)) as [|N2]; [reflexivity|].
  rewrite (T2 N2).
  destruct (negb (TypeId_eqb (id (column_type s "signal")) LARGE_LIST)); [reflexivity|].
  destruct (negb (TypeId_eqb (id (value_type (column_type s "signal"))) INT16));
    [reflexivity|].
  destruct (Z.eqb_spec (GetFieldIndex s "samples") (-1)) as [|N3]; [reflexivity|].
  rewrite (T3 N3).
  destruct (negb (TypeId_eqb (id (column_type s "samples")) UINT32)); reflexivity.
Qed.

Lemma count_after_permutation fs fs' extras nm :
  (forall f, In f extras -> ~ In (field_name f) required_names) ->
  Permutation fs' (fs ++ extras) -> In nm required_names ->
  count_occ string_dec (map field_name fs') nm
  = count_occ string_dec (map field_name fs) nm.
Proof.
  intros Hextra Hperm Hnm.
  rewrite (proj1 (Permutation_count_occ string_dec _ _) (Permutation_map field_name Hperm)).
  rewrite map_app, count_occ_app.
  replace (count_occ string_dec (map field_name extras) nm) with 0%nat; [lia|].
  symmetry. apply count_occ_not_In. intros H. apply in_map_iff in H.
  destruct H as [f [<- Hf]]. now apply (Hextra f).
Qed.

(** X2: the verdict of the validator (acceptance, or the status it rejects
    with) depends neither on the order of the columns, nor on columns of
    other names, nor on the metadata: a schema made of the fields of another
    one, in any order, together with any fields not named read_id, signal or
    samples, under any metadata, gets the same verdict. *)
Theorem verdict_ignores_order_and_other_columns
    (fs fs' extras : list Field) (md md' : KeyValueMetadata) :
  (forall f, In f extras -> ~ In (field_name f) required_names) ->
  Permutation fs' (fs ++ extras) ->
  verdict (read_signal_table_schema (schema fs' md'))
  = verdict (read_signal_table_schema (schema fs md)).
Proof.
  intros Hextra Hperm. apply verdict_by_columns. intros nm Hnm.
  pose proof (count_after_permutation fs fs' extras nm Hextra Hperm Hnm) as Hcount.
  pose proof (GetFieldIndex_count (schema fs md) nm) as C.
  pose proof (GetFieldIndex_count (schema fs' md') nm) as C'.
  cbn [fields] in C, C'. rewrite Hcount in C'.
  split.
  - destruct (Z.eqb_spec (GetFieldIndex (schema fs' md') nm) (-1)) as [E'|E'],
             (Z.eqb_spec (GetFieldIndex (schema fs md) nm) (-1)) as [E|E];
      try reflexivity; exfalso.
    + apply C in E. apply C' in E. contradiction.
    + apply C' in E'. apply C in E'. contradiction.
  - intros N.
    assert (N' : GetFieldIndex (schema fs' md') nm <> -1) by (apply C', C, N).
    destruct (GetFieldIndex_found _ nm N) as [_ [_ [Hnth Hname]]].
    destruct (GetFieldIndex_found _ nm N') as [_ [_ [Hnth' Hname']]].
    cbn [fields] in Hnth, Hnth'.
    unfold column_type. f_equal.
    apply (field_unique nm fs'); try assumption.
    + rewrite Hcount. apply C, N.
    + eapply nth_error_In; eassumption.
    + apply (Permutation_in _ (Permutation_sym Hperm)). apply in_or_app. left.
      eapply nth_error_In; eassumption.
Qed.

(** X3: every accepted schema has exactly one field named read_id, one named
    signal and one named samples.  A schema in which read_id is absent or
    borne by several fields is rejected as missing read_id; one whose read_id
    column passes its checks and in which signal is absent or borne by
    several fields, as missing signal; one whose read_id and signal columns
    pass their checks and in which samples is absent or borne by several
    fields, as missing samples. *)
Theorem ambiguous_column_is_missing :
  (forall s d, read_signal_table_schema s = Ok d ->
     forall nm, In nm required_names ->
       count_occ string_dec (map field_name (fields s)) nm = 1%nat) /\
  (forall s,
     count_occ string_dec (map field_name (fields s)) "read_id"%string <> 1%nat ->
     read_signal_table_schema s
     = Err (status TypeError "Schema missing field 'read_id'")) /\
  (forall s,
     column_ok s c_read_id ->
     count_occ string_dec (map field_name (fields s)) "signal"%string <> 1%nat ->
     read_signal_table_schema s
     = Err (status TypeError "Schema missing field 'signal'")) /\
  (forall s,
     column_ok s c_read_id -> column_ok s c_signal ->
     count_occ string_dec (map field_name (fields s)) "samples"%string <> 1%nat ->
     read_signal_table_schema s
     = Err (status TypeError "Schema missing field 'samples'")).
Proof.
  split; [|split; [|split]].
  - intros s d H nm Hnm. apply read_signal_table_schema_ok in H.
    destruct H as [[H1 _] [[H2 _] [[H3 _] _]]].
    apply GetFieldIndex_count.
    destruct Hnm as [<- | [<- | [<- | []]]]; assumption.
  - intros s H.
    assert (E : GetFieldIndex s "read_id" = -1).
    { destruct (Z.eq_dec (GetFieldIndex s "read_id") (-1)) as [E|E]; [exact E|].
      apply GetFieldIndex_count in E. contradiction. }
    unfold read_signal_table_schema. cbv zeta. rewrite E. reflexivity.
  - intros s [N1 A1] H. cbn [fst snd c_read_id] in *.
    assert (E : GetFieldIndex s "signal" = -1).
    { destruct (Z.eq_dec (GetFieldIndex s "signal") (-1)) as [E|E]; [exact E|].
      apply GetFieldIndex_count in E. contradiction. }
    rewrite read_id_tests in A1. apply andb_prop in A1. destruct A1 as [A1 B1].
    unfold column_type in A1, B1.
    unfold read_signal_table_schema. cbv zeta.
    apply Z.eqb_neq in N1. rewrite N1, A1, B1, E. reflexivity.
  - intros s [N1 A1] [N2 A2] H. cbn [fst snd c_read_id c_signal] in *.
    assert (E : GetFieldIndex s "samples" = -1).
    { destruct (Z.eq_dec (GetFieldIndex s "samples") (-1)) as [E|E]; [exact E|].
      apply GetFieldIndex_count in E. contradiction. }
    rewrite read_id_tests in A1. apply andb_prop in A1. destruct A1 as [A1 B1].
    rewrite signal_tests in A2. apply andb_prop in A2. destruct A2 as [A2 B2].
    unfold column_type in A1, B1, A2, B2.
    unfold read_signal_table_schema. cbv zeta.
    apply Z.eqb_neq in N1. apply Z.eqb_neq in N2.
    rewrite N1, A1, B1, N2, A2, B2, E. reflexivity.
Qed.

Lemma indices_of_with_storage storage nm fs : forall k,
  indices_of nm (map (field_with_storage storage) fs) k = indices_of nm fs k.
Proof.
  induction fs as [|f rest IH]; intros k; [reflexivity|].
  cbn [map indices_of field_with_storage field_name]. now rewrite IH.
Qed.

(** X6: the validator never looks at the storage type of an extension type:
    replacing, in every field, the storage type of an extension type by any
    other type leaves its result unchanged, so the width of the read_id
    column's storage plays no part in validation. *)
Theorem storage_type_is_not_validated
    (storage : DataType) (fs : list Field) (md : KeyValueMetadata) :
  read_signal_table_schema (schema (map (field_with_storage storage) fs) md)
  = read_signal_table_schema (schema fs md).
Proof.
  set (s := schema fs md). set (s' := schema (map (field_with_storage storage) fs) md).
  assert (Hidx : forall nm, GetFieldIndex s' nm = GetFieldIndex s nm).
  { intros nm. unfold GetFieldIndex, s', s. cbn [fields].
    now rewrite indices_of_with_storage. }
  assert (Hty : forall i, type (field_at s' i) = with_storage storage (type (field_at s i))).
  { intros i. unfold field_at, s', s. cbn [fields].
    change (field "" null) with (field_with_storage storage (field "" null)) at 1.
    rewrite map_nth. reflexivity. }
  assert (Hid : forall t, id (with_storage storage t) = id t) by (now destruct t).
  assert (Hname : forall t, name (with_storage storage t) = name t) by (now destruct t).
  assert (Hext : forall t, extension_name (with_storage storage t) = extension_name t)
    by (now destruct t).
  assert (Hval : forall t, TypeId_eqb (id t) LARGE_LIST = true ->
                           value_type (with_storage storage t) = value_type t)
    by (now destruct t).
  unfold read_signal_table_schema. cbv zeta.
  rewrite !Hidx, !Hty, !Hid, !Hname, !Hext.
  destruct (GetFieldIndex s "read_id" =? -1); [reflexivity|].
  destruct (negb (TypeId_eqb (id (type (field_at s (GetFieldIndex s "read_id")))) EXTENSION));
    [reflexivity|].
  destruct (negb (extension_name (type (field_at s (GetFieldIndex s "read_id")))
                  =? "minknow.uuid")%string); [reflexivity|].
  destruct (GetFieldIndex s "signal" =? -1); [reflexivity|].
  destruct (TypeId_eqb (id (type (field_at s (GetFieldIndex s "signal")))) LARGE_LIST) eqn:L;
    cbn [negb]; [|reflexivity].
  rewrite (Hval _ L). reflexivity.
Qed.

Lemma resolved_positions_distinct_witness :
  read_signal_table_schema (make_signal_table_schema [])
  = Ok {| read_id := 0; signal := 1; samples := 2 |} /\
  3 <= Z.of_nat (length (fields (make_signal_table_schema []))).
Proof.
  split; [reflexivity|].
  exact (proj2 (proj2 (resolved_positions_distinct (make_signal_table_schema []) _ eq_refl))).
Defined.

Lemma verdict_ignores_order_and_other_columns_witness :
  verdict (read_signal_table_schema
             (schema [field "note" utf8; field "samples" uint32;
                      field "signal" (list_ int16); field "read_id" uuid] []))
  = verdict (read_signal_table_schema
               (schema [field "read_id" uuid; field "signal" (list_ int16);
                        field "samples" uint32] [("k", "v")]%string)).
Proof.
  apply (verdict_ignores_order_and_other_columns
           [field "read_id" uuid; field "signal" (list_ int16); field "samples" uint32]
           _ [field "note" utf8]).
  - intros f [<- | []]. cbn. intros [H | [H | [H | []]]]; discriminate.
  - apply Permutation_sym.
    exact (Permutation_rev
             ([field "read_id" uuid; field "signal" (list_ int16); field "samples" uint32]
              ++ [field "note" utf8])).
Defined.

End schema_more.

(* ================================================================== *)
(** * More on the codec: the encoded length in 32 bits *)

Module codec_more.

Section EncodedLength.
Context {zstd : Zstd} {config : BuildConfig}.

(** X5: [compressed_signal_max_size] is the compressor's bound at
    [ceil (n / 4) + 2 * n] for up to 1908874353 samples; from 1908874354
    samples on the 32-bit variable that holds the encoded length wraps, and
    for 1908874354 samples the bound returned is that of a one-byte input. *)
Theorem compressed_signal_max_size_wraps :
  (forall n, 0 <= n <= 1908874353 ->
     compressed_signal_max_size n = ZSTD_compressBound ((n + 3) / 4 + 2 * n)) /\
  (forall n, 1908874354 <= n -> 2 ^ 32 <= svb16_max_encoded_length n) /\
  compressed_signal_max_size 1908874354 = ZSTD_compressBound 1.
Proof.
  split; [|split].
  - intros n Hn. unfold compressed_signal_max_size, svb16_max_encoded_length, to_uint32.
    cbv zeta. rewrite Z.mod_small; [reflexivity|].
    change (2 ^ 32) with 4294967296. Z.div_mod_to_equations; lia.
  - intros n Hn. unfold svb16_max_encoded_length.
    change (2 ^ 32) with 4294967296. Z.div_mod_to_equations; lia.
  - reflexivity.
Qed.

(** X7: [compress_signal] allocates [intermediate] with the maximum encoded
    length kept in a [uint32_t] and lets the encoder write the whole encoding
    into it: the encoder writes past the end of the allocation exactly for the
    buffers of 1908874354 samples or more. *)
Theorem compress_signal_overruns_from_1908874354
    (compression_size : Z) (samples : list Z) :
  as_written.compress_signal compression_size samples (len samples) = Undefined
  <-> 1908874354 <= len samples.
Proof.
  split.
  - intros H.
    destruct (Z.lt_ge_cases (len samples) 1908874354) as [Hlt|Hge]; [|exact Hge].
    exfalso.
    assert (Hfit : svb16_max_encoded_length (len samples) < 2 ^ 32).
    { unfold svb16_max_encoded_length. change (2 ^ 32) with 4294967296.
      Z.div_mod_to_equations; lia. }
    rewrite as_written_compress_cases in H. cbv zeta in H.
    rewrite (encoder_stays_inside samples Hfit) in H.
    destruct (_ || _); discriminate.
  - intros H. apply encoder_overruns_intermediate.
    unfold svb16_max_encoded_length. change (2 ^ 32) with 4294967296.
    Z.div_mod_to_equations; lia.
Qed.

End EncodedLength.

End codec_more.
